(** * Shooting solver for the assortative matching model: a shallow embedding

    This development embeds [solvers.py] (class [ShootingSolver]) and proves
    properties of its shooting driver, its trajectory validator, its
    interpolation/residual diagnostic and its public solution table.

    Conventions of the embedding.

    - Python floats are idealised as exact rationals ([Q]): every comparison
      and every arithmetic expression is written as in the source, rounding
      is not modelled.
    - [self.model] is a record; the functions that [sympy.lambdify] compiles
      from the model's symbolic expressions (with the parameter values already
      applied) are fields of that record.
    - [scipy.integrate.ode] is a record holding [t], [y] and the success flag;
      the numerical stepper itself is a parameter ([ode_run]).
    - [assert] and [raise] are results of an error monad; [print] appends to
      the solver's output. *)

From Stdlib Require Import QArith Qabs Qround Lqa ZArith Lia List String Bool.
From stdpp Require Import gmap.
From Stdlib Require Import Sorted.
Import ListNotations.

#[local] Open Scope Q_scope.
#[local] Unset Default Proof Using.

(** ** Exceptions and the error monad *)

Inductive exn : Type :=
| AssertionError (mesg : string)
| ValueError (mesg : string)
| IndexError
| ZeroDivisionError.

Inductive res (A : Type) : Type :=
| Ok (a : A)
| Raise (e : exn).
Arguments Ok {A} a.
Arguments Raise {A} e.

#[global] Instance res_ret : MRet res := fun _ a => Ok a.

#[global] Instance res_bind : MBind res := fun _ _ k m =>
  match m with
  | Ok a => k a
  | Raise e => Raise e
  end.

(** [assert cond, mesg] *)
Definition assert (cond : bool) (mesg : string) : res unit :=
  if cond then Ok tt else Raise (AssertionError mesg).

(** Python's [a > b], [a < b] and [a <= b] on floats. *)
Definition Qgtb (a b : Q) : bool := negb (Qle_bool a b).
Definition Qltb (a b : Q) : bool := negb (Qle_bool b a).

(** ** The model ([self.model]) *)

(** The dependent variables, ordered [[mu, theta]]: index 0 is the matching
    value (firm productivity), index 1 is the firm size. *)
Abbreviation Vec2 := (Q * Q)%type (only parsing).
Definition idx0 (V : Vec2) : Q := fst V.
Definition idx1 (V : Vec2) : Q := snd V.

(** [model.workers] and [model.firms]: the bounds of a population. *)
Record Population : Type := {
  lower : Q;
  upper : Q
}.

Record Model : Type := {
  workers : Population;
  firms : Population;
  assortativity : string;
  (* the functions lambdified from the symbolic expressions *)
  _numeric_input_types : Q -> Vec2 -> Q;
  _numeric_quantities : Q -> Vec2 -> Q;
  _numeric_span_of_control : Q -> Vec2 -> Q;
  _numeric_type_resource : Q -> Vec2 -> Q;
  _numeric_wage : Q -> Vec2 -> Q;
  _numeric_profit : Q -> Vec2 -> Q;
  _numeric_system : Q -> Vec2 -> Vec2
}.

Definition is_positive (m : Model) : bool := String.eqb (assortativity m) "positive".
Definition is_negative (m : Model) : bool := String.eqb (assortativity m) "negative".

(** ** The integrator ([scipy.integrate.ode]) *)

Record Integrator : Type := {
  t : Q;
  y : Vec2;
  success : bool
}.

(** The stepper behind [ode.integrate]: from [(t, y)] towards a target it
    returns the state and the point it reached and whether it succeeded. *)
Definition Stepper : Type := (Q -> Vec2 -> Vec2) -> Q -> Vec2 -> Q -> Vec2 * Q * bool.

(** [ode.set_initial_value(y, t)]: also resets the success flag. *)
Definition set_initial_value (V : Vec2) (x : Q) : Integrator :=
  {| t := x; y := V; success := true |}.

(** [ode.successful()] *)
Definition successful (ig : Integrator) : bool := success ig.

(** ** The trajectory *)

(** One row of [_solution]: [hstack((x, V, wage, profit))], the columns that
    [solution] labels x, firm productivity, firm size, wage and profit. *)
Record Row : Type := {
  row_x : Q;
  row_V : Vec2;
  row_wage : Q;
  row_profit : Q
}.

Definition row_firm_productivity (r : Row) : Q := idx0 (row_V r).
Definition row_firm_size (r : Row) : Q := idx1 (row_V r).

(** What [print] receives. *)
Inductive Mesg : Type :=
| FailureIncreaseGuess
    (* Failure! Need to increase initial guess for upper bound on firm size! *)
| SuccessAllMatched
    (* Success! All workers and firms are matched *)
| ExhaustedFirmsIsTooLow (guess : Q)
    (* Exhausted firms: initial guess of {} for firm size is too low. *)
| ExhaustedFirmsWasTooLow (guess : Q)
    (* Exhausted firms: Initial guess of {} for firm size was too low! *)
| ExhaustedWorkersTooHigh (guess : Q)
    (* Exhausted workers: initial guess of {} for firm size is too high! *).

(** The mutable part of a [ShootingSolver]: the integrator and the solution
    array (a list of rows, in the order they were stacked). *)
Record Solver : Type := {
  integrator : Integrator;
  _solution : list Row
}.

(** The arguments of [solve]. The integrator name and its keyword options
    select and tune the stepper, which is a parameter here. *)
Record SolveArgs : Type := {
  guess_firm_size_upper : Q;
  tol : Q;
  number_knots : Z;
  message : bool
}.

(** The solver object together with the local variables of [solve] that
    live across passes of its loop, and what has been printed so far. *)
Record Frame : Type := {
  self : Solver;
  firm_size_lower : Q;
  firm_size_upper : Q;
  guess_firm_size : Q;
  stdout : list Mesg
}.

(** How a pass of the loop hands over: to the loop test again, or out of
    the loop. *)
Inductive Exit : Type :=
| LoopTestFalse      (* [self.integrator.successful()] was false *)
| BreakGuessTooLow   (* the [break] under [_guess_firm_size_upper_too_low] *)
| BreakSuccess       (* the [break] after [_validate_solution] *).

Inductive Control : Type :=
| Next (f : Frame)
| Break (why : Exit) (f : Frame).

(** What a run of [solve] amounts to when the loop is given [fuel] passes. *)
Inductive Result : Type :=
| Raised (e : exn)
| Returned (why : Exit) (f : Frame)
| Running (f : Frame)   (* after [fuel] passes the loop test still holds *).

(** [np.finfo('float').eps] *)
Definition float_eps : Q := 1 # 4503599627370496.

(** [np.isclose(a, b)] with its default [rtol=1e-05] and [atol=1e-08]. *)
Definition np_isclose (a b : Q) : bool :=
  Qle_bool (Qabs (a - b)) ((1 # 100000000) + (1 # 100000) * Qabs b).

Definition print (msg : Mesg) (f : Frame) : Frame :=
  {| self := self f;
     firm_size_lower := firm_size_lower f;
     firm_size_upper := firm_size_upper f;
     guess_firm_size := guess_firm_size f;
     stdout := stdout f ++ [msg] |}.

(** [if message: print(mesg)] *)
Definition print_if (flag : bool) (msg : Mesg) (f : Frame) : Frame :=
  if flag then print msg f else f.

Section ShootingSolver.

Context (model : Model) (ode_run : Stepper).

(** *** Numerical evaluation *)

Definition evaluate_input_types (x : Q) (V : Vec2) : Q :=
  _numeric_input_types model x V.

Definition evaluate_quantities (x : Q) (V : Vec2) : Q :=
  _numeric_quantities model x V.

Definition evaluate_span_of_control (x : Q) (V : Vec2) : Q :=
  _numeric_span_of_control model x V.

Definition evaluate_type_resource (x : Q) (V : Vec2) : Q :=
  _numeric_type_resource model x V.

Definition evaluate_rhs (x : Q) (V : Vec2) : Vec2 :=
  _numeric_system model x V.

Definition evaluate_profit (x : Q) (V : Vec2) : res Q :=
  let profit := _numeric_profit model x V in
  _ ← assert (Qgtb profit 0) "Profit should be non-negative!";
  Ok profit.

Definition evaluate_wage (x : Q) (V : Vec2) : res Q :=
  let wage := _numeric_wage model x V in
  _ ← assert (Qgtb wage 0) "Wage should be non-negative!";
  Ok wage.

(** [ode.integrate(t)]: [t] and [y] become what the stepper returns; a
    failed run clears the success flag. *)
Definition integrate (ig : Integrator) (target : Q) : Integrator :=
  let '(y', t', ok) := ode_run evaluate_rhs (t ig) (y ig) target in
  {| t := t'; y := y'; success := success ig && ok |}.

(** *** Checks *)

Definition _check_pam (step : Row) : bool :=
  let x := row_x step in
  let V := row_V step in
  let LHS := evaluate_input_types x V * evaluate_quantities x V in
  let RHS := evaluate_span_of_control x V * evaluate_type_resource x V in
  if np_isclose (LHS - RHS) 0 then true else Qgtb LHS RHS.

Definition _converged_firms (s : Solver) (tol : Q) : bool :=
  if Qle_bool (Qabs (idx0 (y (integrator s)) - lower (firms model))) tol
  then true else false.

Definition _converged_workers (s : Solver) (tol : Q) : bool :=
  if is_positive model then
    if Qle_bool (Qabs (t (integrator s) - lower (workers model))) tol
    then true else false
  else
    if Qle_bool (Qabs (t (integrator s) - upper (workers model))) tol
    then true else false.

Definition _exhausted_firms (s : Solver) (tol : Q) : bool :=
  if Qltb (idx0 (y (integrator s)) - lower (firms model)) (- tol)
  then true else false.

Definition _guess_firm_size_upper_too_low (s : Solver) (bound tol : Q) : bool :=
  Qle_bool (Qabs (idx1 (y (integrator s)) - bound)) tol.

(** *** Updating the solver *)

Definition _reset_solution (firm_size : Q) : res Solver :=
  let x_lower := lower (workers model) in
  let x_upper := upper (workers model) in
  let y_upper := upper (firms model) in
  let initial_V : Vec2 := (y_upper, firm_size) in
  if is_positive model then
    let ig := set_initial_value initial_V x_upper in
    wage ← evaluate_wage x_upper initial_V;
    profit ← evaluate_profit x_upper initial_V;
    Ok {| integrator := ig;
          _solution := [ {| row_x := x_upper; row_V := initial_V;
                            row_wage := wage; row_profit := profit |} ] |}
  else
    let ig := set_initial_value initial_V x_lower in
    wage ← evaluate_wage x_lower initial_V;
    profit ← evaluate_profit x_lower initial_V;
    Ok {| integrator := ig;
          _solution := [ {| row_x := x_lower; row_V := initial_V;
                            row_wage := wage; row_profit := profit |} ] |}.

Definition _update_initial_guess (lower upper : Q) : res Q :=
  let err_mesg := "Upper and lower bounds are identical: check solver tols!"%string in
  _ ← assert (Qgtb (upper - lower) float_eps) err_mesg;
  let guess := (1 # 2) * (lower + upper) in
  Ok guess.

Definition _update_solution (s : Solver) (step_size : Q) : res Solver :=
  let ig :=
    if is_positive model
    then integrate (integrator s) (t (integrator s) - step_size)
    else integrate (integrator s) (t (integrator s) + step_size) in
  let x := t ig in
  let V := y ig in
  _ ← assert (Qgtb (idx1 V) 0) "Firm size should be non-negative!";
  wage ← evaluate_wage x V;
  profit ← evaluate_profit x V;
  let step := {| row_x := x; row_V := V; row_wage := wage; row_profit := profit |} in
  Ok {| integrator := ig; _solution := _solution s ++ [step] |}.

Definition _validate_solution (solution : list Row) : res unit :=
  let check := map _check_pam solution in
  let mesg := "Approximated solution failed to satisfy required assortativity condition."%string in
  if is_positive model && negb (forallb id check) then
    Raise (ValueError mesg)
  else if is_negative model && forallb id check then
    Raise (ValueError mesg)
  else
    Ok tt.

(** *** The shooting loop *)

Definition with_self (f : Frame) (s : Solver) : Frame :=
  {| self := s;
     firm_size_lower := firm_size_lower f;
     firm_size_upper := firm_size_upper f;
     guess_firm_size := guess_firm_size f;
     stdout := stdout f |}.

Definition with_lower (f : Frame) (v : Q) : Frame :=
  {| self := self f;
     firm_size_lower := v;
     firm_size_upper := firm_size_upper f;
     guess_firm_size := guess_firm_size f;
     stdout := stdout f |}.

Definition with_upper (f : Frame) (v : Q) : Frame :=
  {| self := self f;
     firm_size_lower := firm_size_lower f;
     firm_size_upper := v;
     guess_firm_size := guess_firm_size f;
     stdout := stdout f |}.

(** The two statements that close a pass after a bracket update. *)
Definition restart (f : Frame) : res Control :=
  guess ← _update_initial_guess (firm_size_lower f) (firm_size_upper f);
  s ← _reset_solution guess;
  Ok (Next {| self := s;
              firm_size_lower := firm_size_lower f;
              firm_size_upper := firm_size_upper f;
              guess_firm_size := guess;
              stdout := stdout f |}).

(** One pass of the body of [while self.integrator.successful()]. *)
Definition loop_body (a : SolveArgs) (step_size : Q) (f : Frame) : res Control :=
  if _guess_firm_size_upper_too_low (self f) (guess_firm_size_upper a) (tol a) then
    Ok (Break BreakGuessTooLow (print_if (message a) FailureIncreaseGuess f))
  else
    s ← _update_solution (self f) step_size;
    let f := with_self f s in
    if _converged_workers s (tol a) && _converged_firms s (tol a) then
      _ ← _validate_solution (_solution s);
      Ok (Break BreakSuccess (print SuccessAllMatched f))
    else if negb (_converged_workers s (tol a)) && _exhausted_firms s (tol a) then
      let f := print_if (message a) (ExhaustedFirmsIsTooLow (guess_firm_size f)) f in
      restart (with_lower f (guess_firm_size f))
    else if _converged_workers s (tol a) && _exhausted_firms s (tol a) then
      let f := print_if (message a) (ExhaustedFirmsWasTooLow (guess_firm_size f)) f in
      restart (with_lower f (guess_firm_size f))
    else if _converged_workers s (tol a) && negb (_exhausted_firms s (tol a)) then
      let f := print_if (message a) (ExhaustedWorkersTooHigh (guess_firm_size f)) f in
      restart (with_upper f (guess_firm_size f))
    else
      Ok (Next f).

(** [while self.integrator.successful(): ...], with at most [fuel] passes
    of the body. *)
Fixpoint solve_loop (a : SolveArgs) (step_size : Q) (fuel : nat) (f : Frame) : Result :=
  if successful (integrator (self f)) then
    match fuel with
    | O => Running f
    | S fuel' =>
        match loop_body a step_size f with
        | Raise e => Raised e
        | Ok (Break why f') => Returned why f'
        | Ok (Next f') => solve_loop a step_size fuel' f'
        end
    end
  else Returned LoopTestFalse f.

(** The statements of [solve] before its loop: the bracket, the first
    guess and the boundary row. *)
Definition solve_init (a : SolveArgs) : res Frame :=
  let firm_size_lower := 0 in
  let firm_size_upper := guess_firm_size_upper a in
  let guess_firm_size := (1 # 2) * (firm_size_upper + firm_size_lower) in
  s ← _reset_solution guess_firm_size;
  Ok {| self := s;
        firm_size_lower := firm_size_lower;
        firm_size_upper := firm_size_upper;
        guess_firm_size := guess_firm_size;
        stdout := [] |}.

(** [step_size = (x_upper - x_lower) / (number_knots - 1)] followed by
    [assert step_size > 0]; the bounds are floats and [number_knots] an
    integer, so the division is true division and fails on zero. *)
Definition solve_step_size (a : SolveArgs) : res Q :=
  let x_lower := lower (workers model) in
  let x_upper := upper (workers model) in
  if Z.eqb (number_knots a - 1) 0 then Raise ZeroDivisionError
  else
    let step_size := (x_upper - x_lower) / inject_Z (number_knots a - 1) in
    _ ← assert (Qgtb step_size 0) "";
    Ok step_size.

Definition solve (a : SolveArgs) (fuel : nat) : Result :=
  match solve_init a with
  | Raise e => Raised e
  | Ok f =>
      match solve_step_size a with
      | Raise e => Raised e
      | Ok step_size => solve_loop a step_size fuel f
      end
  end.

End ShootingSolver.

(** ** The public solution table *)

(** The column labels of the table built by [solution]. *)
Inductive Label : Type :=
| Lx | Lfirm_productivity | Lfirm_size | Lwage | Lprofit.

Definition label_name (c : Label) : string :=
  match c with
  | Lx => "x"
  | Lfirm_productivity => "firm productivity"
  | Lfirm_size => "firm size"
  | Lwage => "wage"
  | Lprofit => "profit"
  end.

Definition col_names : list Label :=
  [Lx; Lfirm_productivity; Lfirm_size; Lwage; Lprofit].

Definition column (c : Label) (r : Row) : Q :=
  match c with
  | Lx => row_x r
  | Lfirm_productivity => row_firm_productivity r
  | Lfirm_size => row_firm_size r
  | Lwage => row_wage r
  | Lprofit => row_profit r
  end.

(** Sorting rows in ascending order of one column: what [df.sort(by)]
    computes. Rows with equal keys keep their relative order here. *)
Fixpoint insert_by (c : Label) (r : Row) (rows : list Row) : list Row :=
  match rows with
  | [] => [r]
  | r' :: rest =>
      if Qle_bool (column c r) (column c r') then r :: rows
      else r' :: insert_by c r rest
  end.

Definition sort_by (c : Label) (rows : list Row) : list Row :=
  fold_right (insert_by c) [] rows.

(** The rows of the table that [solution] returns, read off the stored
    array. *)
Definition solution_rows (model : Model) (s : Solver) : list Row :=
  if is_positive model then sort_by Lx (_solution s) else _solution s.

(** *** The getter on a store of arrays

    [pd.DataFrame(array)] wraps the array it is given without copying it, so
    the frame and [self._solution] share one buffer until the frame's data is
    replaced. The store below maps references to buffers; a frame holds a
    reference. In pandas, [sort(inplace=True)] takes the rows in sorted
    order into new storage and rebinds the frame to it, and [set_index]
    returns a new frame. *)
Module Pandas.

Definition loc : Type := positive.

Record DataFrame : Type := {
  df_data : loc;
  df_columns : list Label;
  df_index : option Label
}.

Definition alloc (h : gmap loc (list Row)) (rows : list Row)
  : loc * gmap loc (list Row) :=
  let l := fresh (dom h) in (l, <[l := rows]> h).

Definition read (h : gmap loc (list Row)) (l : loc) : list Row :=
  default [] (h !! l).

(** [pd.DataFrame(array, columns=names)] *)
Definition new_DataFrame (array : loc) (names : list Label) : DataFrame :=
  {| df_data := array; df_columns := names; df_index := None |}.

(** [df.sort(by, inplace=True)] *)
Definition sort_inplace (h : gmap loc (list Row)) (df : DataFrame) (c : Label)
  : gmap loc (list Row) * DataFrame :=
  let '(l, h') := alloc h (sort_by c (read h (df_data df))) in
  (h', {| df_data := l; df_columns := df_columns df; df_index := df_index df |}).

(** [df.set_index(by)] *)
Definition set_index (h : gmap loc (list Row)) (df : DataFrame) (c : Label)
  : gmap loc (list Row) * DataFrame :=
  let '(l, h') := alloc h (read h (df_data df)) in
  (h', {| df_data := l; df_columns := df_columns df; df_index := Some c |}).

(** The property [solution], with [self._solution] a reference into the
    store. *)
Definition solution (model : Model) (h : gmap loc (list Row)) (_solution : loc)
  : gmap loc (list Row) * DataFrame :=
  let df := new_DataFrame _solution col_names in
  let '(h, df) :=
    if is_positive model then sort_inplace h df Lx else (h, df) in
  set_index h df Lx.


End Pandas.

(** ** Interpolation and the residual *)

Section Interpolation.

Context (model : Model).

(** [scipy.interpolate.splprep] and [splev]: the fit of a parametric
    B-spline through two coordinate arrays over the parameter values [u]
    with degree [k] and smoothing [s], and its evaluation (or that of its
    derivative of order [der]) at the points [x] under the policy [ext]. *)
Context {tck : Type}
        (splprep : list Q * list Q -> list Q -> Z -> Q -> res tck)
        (splev : list Q -> tck -> Z -> Z -> res (list Q * list Q)).

Definition interpolate (s : Solver) (x : list Q) (k der ext : Z) : res (list Vec2) :=
  (* array of parameter values *)
  let u := map (column Lx) (solution_rows model s) in
  (* build list of input arrays *)
  let X := (map (column Lfirm_productivity) (solution_rows model s),
            map (column Lfirm_size) (solution_rows model s)) in
  (* construct the B-spline representation (s=0 forces interpolation!) *)
  tck ← splprep X u k 0;
  (* evaluate the B-spline *)
  out ← splev x tck der ext;
  (* convert to a 2D array *)
  Ok (zip (fst out) (snd out)).

(** [a[i]] *)
Definition getitem {A : Type} (a : list A) (i : nat) : res A :=
  match a !! i with
  | Some v => Ok v
  | None => Raise IndexError
  end.

(** [np.vstack(g(i) for i in range(T))] *)
Fixpoint vstack_for {A : Type} (g : nat -> res A) (range : list nat) : res (list A) :=
  match range with
  | [] => Ok []
  | i :: rest =>
      v ← g i;
      vs ← vstack_for g rest;
      Ok (v :: vs)
  end.

Definition sub2 (a b : Vec2) : Vec2 := (idx0 a - idx0 b, idx1 a - idx1 b).

(** [a - b] on two arrays of rows; arrays with different numbers of rows
    are rejected. *)
Definition array_sub (a b : list Vec2) : res (list Vec2) :=
  if Nat.eqb (length a) (length b) then Ok (zip_with sub2 a b)
  else Raise (ValueError "operands could not be broadcast together").

Definition evaluate_residual (s : Solver) (x : list Q) (k ext : Z) : res (list Vec2) :=
  (* B-spline approximations of the solution and its derivative *)
  soln ← interpolate s x k 0 ext;
  deriv ← interpolate s x k 1 ext;
  (* rhs of ode evaluated along approximate solution *)
  let T := length x in
  rhs_ode ← vstack_for (fun i => xi ← getitem x i;
                                 si ← getitem soln i;
                                 Ok (evaluate_rhs model xi si)) (seq 0 T);
  (* should be roughly zero everywhere (if approximation is good!) *)
  array_sub deriv rhs_ode.

End Interpolation.

(** ** Vocabulary for the statements *)

(** The worker bound at which a shooting attempt starts. *)
Definition anchor (model : Model) : Q :=
  if is_positive model then upper (workers model) else lower (workers model).

(** The boundary-condition row for a guess of the initial firm size. *)
Definition boundary_row (model : Model) (guess : Q) : Row :=
  let V : Vec2 := (upper (firms model), guess) in
  {| row_x := anchor model; row_V := V;
     row_wage := _numeric_wage model (anchor model) V;
     row_profit := _numeric_profit model (anchor model) V |}.

(** The integrator after the step that [_update_solution] takes. *)
Definition stepped (model : Model) (ode_run : Stepper) (s : Solver) (step_size : Q)
  : Integrator :=
  if is_positive model
  then integrate model ode_run (integrator s) (t (integrator s) - step_size)
  else integrate model ode_run (integrator s) (t (integrator s) + step_size).

(** The outcome of a pass that restarts the attempt from the bracket
    [lo, hi]: the loop goes on with that bracket, its midpoint as the guess
    and a trajectory holding only the boundary row of that guess; the pass
    raises when the bracket is no wider than machine epsilon or when wage or
    profit is not positive at the new boundary. *)
Definition restarted_from (model : Model) (lo hi : Q) (r : res Control) : Prop :=
  let guess := (1 # 2) * (lo + hi) in
  let V : Vec2 := (upper (firms model), guess) in
  match r with
  | Ok (Next f') =>
      firm_size_lower f' = lo
      /\ firm_size_upper f' = hi
      /\ guess_firm_size f' = guess
      /\ float_eps < hi - lo
      /\ _solution (self f') = [boundary_row model guess]
      /\ integrator (self f') = set_initial_value V (anchor model)
  | Ok (Break _ _) => False
  | Raise e =>
      exists mesg, e = AssertionError mesg
      /\ (hi - lo <= float_eps
          \/ _numeric_wage model (anchor model) V <= 0
          \/ _numeric_profit model (anchor model) V <= 0)
  end.

(** The contract of the stepper: a run that reports success has reached
    its target. *)
Definition reaches_target (ode_run : Stepper) : Prop :=
  forall f t0 y0 target y1 t1,
    ode_run f t0 y0 target = (y1, t1, true) -> t1 == target.

(** The contract of [splev]: one value per query point in each of the two
    coordinate arrays. *)
Definition splev_shape {tck : Type}
    (splev : list Q -> tck -> Z -> Z -> res (list Q * list Q)) : Prop :=
  forall x c der ext out,
    splev x c der ext = Ok out ->
    length (fst out) = length x /\ length (snd out) = length x.

(** A run has stopped when it raised or returned. *)
Definition stopped (r : Result) : Prop :=
  match r with
  | Running _ => False
  | _ => True
  end.

(** The positivity invariant of a trajectory row. *)
Definition row_positive (r : Row) : Prop :=
  0 < row_firm_size r /\ 0 < row_wage r /\ 0 < row_profit r.

(** What the loop keeps once it starts from a positive upper guess. *)
Definition positive_inv (f : Frame) : Prop :=
  0 <= firm_size_lower f
  /\ 0 < guess_firm_size f
  /\ Forall row_positive (_solution (self f)).

(** The frame a result ends in, if any. *)
Definition final_frame (r : Result) : option Frame :=
  match r with
  | Raised _ => None
  | Returned _ f => Some f
  | Running f => Some f
  end.

(** The PAM condition of one row, as a proposition. *)
Definition pam_condition (model : Model) (r : Row) : Prop :=
  let LHS := _numeric_input_types model (row_x r) (row_V r)
             * _numeric_quantities model (row_x r) (row_V r) in
  let RHS := _numeric_span_of_control model (row_x r) (row_V r)
             * _numeric_type_resource model (row_x r) (row_V r) in
  Qabs (LHS - RHS) <= 1 # 100000000 \/ RHS < LHS.

(** The classification tests with the wording of the specification taken
    literally: on the firm-size component of the state. *)
Definition firm_size_converged (model : Model) (s : Solver) (tol : Q) : Prop :=
  Qabs (idx1 (y (integrator s)) - lower (firms model)) <= tol.

Definition firm_size_exhausted (model : Model) (s : Solver) (tol : Q) : Prop :=
  idx1 (y (integrator s)) - lower (firms model) < - tol.

(** A search-infeasibility condition is reported when the run raises, or
    when the failure message was printed. *)
Definition reported (r : Result) : Prop :=
  match r with
  | Raised _ => True
  | Returned _ f => In FailureIncreaseGuess (stdout f)
  | Running _ => False
  end.

(** ** Concrete instances *)

(** A small model: workers in [1, 2], firms in [1, 3], the matching value
    moving at the rate [rate / theta] and a constant firm size; the
    complementarities are constants, wage and profit equal one. *)
Definition toy_model (sign : string) (rate Fxy : Q) : Model :=
  {| workers := {| lower := 1; upper := 2 |};
     firms := {| lower := 1; upper := 3 |};
     assortativity := sign;
     _numeric_input_types := fun _ _ => Fxy;
     _numeric_quantities := fun _ _ => 1;
     _numeric_span_of_control := fun _ _ => 1;
     _numeric_type_resource := fun _ _ => 1;
     _numeric_wage := fun _ _ => 1;
     _numeric_profit := fun _ _ => 1;
     _numeric_system := fun _ V => (rate / idx1 V, 0) |}.

(** A model whose input-type complementarity is the worker skill itself,
    so that rows differ in whether they meet the PAM condition. *)
Definition mixed_model (sign : string) : Model :=
  {| workers := {| lower := 1; upper := 2 |};
     firms := {| lower := 1; upper := 3 |};
     assortativity := sign;
     _numeric_input_types := fun x _ => x;
     _numeric_quantities := fun _ _ => 1;
     _numeric_span_of_control := fun _ _ => 1;
     _numeric_type_resource := fun _ _ => 1;
     _numeric_wage := fun _ _ => 1;
     _numeric_profit := fun _ _ => 1;
     _numeric_system := fun _ _ => (0, 0) |}.

(** One explicit Euler step to the target, always successful. *)
Definition euler : Stepper :=
  fun f t0 y0 target =>
    let d := f t0 y0 in
    ((idx0 y0 + (target - t0) * idx0 d, idx1 y0 + (target - t0) * idx1 d),
     target, true).

(** A stand-in for the spline routines: the curve (x, 2 x), whatever the
    data; its derivative of order one is (1, 2). *)
Definition line_splprep (X : list Q * list Q) (u : list Q) (k : Z) (s : Q) : res unit :=
  Ok tt.

Definition line_splev (x : list Q) (c : unit) (der ext : Z) : res (list Q * list Q) :=
  if Z.eqb der 0 then Ok (x, map (fun v => 2 * v) x)
  else Ok (map (fun _ => 1) x, map (fun _ => 2) x).

Definition toy_args (G tol : Q) (knots : Z) (msg : bool) : SolveArgs :=
  {| guess_firm_size_upper := G; tol := tol; number_knots := knots; message := msg |}.

Definition toy_solver (x mu theta : Q) : Solver :=
  {| integrator := {| t := x; y := (mu, theta); success := true |};
     _solution := [] |}.

Definition toy_frame (s : Solver) (lo hi g : Q) : Frame :=
  {| self := s; firm_size_lower := lo; firm_size_upper := hi;
     guess_firm_size := g; stdout := [] |}.

Definition toy_row (x mu theta : Q) : Row :=
  {| row_x := x; row_V := (mu, theta); row_wage := 1; row_profit := 1 |}.

(** A stepper that fails at once and stays where it is. *)
Definition failing : Stepper := fun _ t0 y0 _ => (y0, t0, false).

(** A spline evaluation that, like [splev] with [ext=2], refuses query
    points outside the sampled range, here [1, 2]. *)
Definition ranged_splev (x : list Q) (c : unit) (der ext : Z) : res (list Q * list Q) :=
  if Z.eqb ext 2 && negb (forallb (fun v => Qle_bool 1 v && Qle_bool v 2) x)
  then Raise (ValueError "Error on input data")
  else line_splev x c der ext.

(** A model on the same ranges whose matching value falls at the rate 2
    while the firm size grows at the rate 5 as the worker skill goes down:
    from the state (3, -4) at x = 2, one step of length 1 lands on (1, 1). *)
Definition drift_model : Model :=
  {| workers := {| lower := 1; upper := 2 |};
     firms := {| lower := 1; upper := 3 |};
     assortativity := "positive";
     _numeric_input_types := fun _ _ => 2;
     _numeric_quantities := fun _ _ => 1;
     _numeric_span_of_control := fun _ _ => 1;
     _numeric_type_resource := fun _ _ => 1;
     _numeric_wage := fun _ _ => 1;
     _numeric_profit := fun _ _ => 1;
     _numeric_system := fun _ _ => (2, -5) |}.

(** A solver whose trajectory is a stacked array of two rows. *)
Definition stacked_solver : Solver :=
  {| integrator := set_initial_value (1, 2) 1;
     _solution := [toy_row 2 3 2; toy_row 1 1 2] |}.

(** ** Vocabulary for the properties of whole runs *)

(** The frames at the head of the loop that a run passes through: each is
    obtained from the one before by a pass that hands over to the loop
    test. *)
Inductive reaches (model : Model) (ode_run : Stepper) (a : SolveArgs) (step_size : Q)
  : Frame -> Frame -> Prop :=
| reaches_refl (f : Frame) : reaches model ode_run a step_size f f
| reaches_step (f f1 f2 : Frame) :
    reaches model ode_run a step_size f f1 ->
    successful (integrator (self f1)) = true ->
    loop_body model ode_run a step_size f1 = Ok (Next f2) ->
    reaches model ode_run a step_size f f2.

(** The worker bound at which an attempt ends. *)
Definition terminal (model : Model) : Q :=
  if is_positive model then lower (workers model) else upper (workers model).

(** The row recorded for the point at which an integrator stands. *)
Definition row_at (model : Model) (ig : Integrator) : Row :=
  {| row_x := t ig; row_V := y ig;
     row_wage := _numeric_wage model (t ig) (y ig);
     row_profit := _numeric_profit model (t ig) (y ig) |}.

(** The bracket of a frame is not empty and lies within
    [0, guess_firm_size_upper], and the guess lies within the bracket. *)
Definition bracket_inv (a : SolveArgs) (f : Frame) : Prop :=
  0 <= firm_size_lower f
  /\ firm_size_lower f < firm_size_upper f
  /\ firm_size_upper f <= guess_firm_size_upper a
  /\ firm_size_lower f <= guess_firm_size f
  /\ guess_firm_size f <= firm_size_upper f.

(** The frame from which [solve] enters its loop. *)
Definition first_frame (model : Model) (a : SolveArgs) : Frame :=
  {| self := {| integrator :=
                  set_initial_value
                    (upper (firms model), (1 # 2) * (guess_firm_size_upper a + 0))
                    (anchor model);
                _solution := [boundary_row model
                                ((1 # 2) * (guess_firm_size_upper a + 0))] |};
     firm_size_lower := 0;
     firm_size_upper := guess_firm_size_upper a;
     guess_firm_size := (1 # 2) * (guess_firm_size_upper a + 0);
     stdout := [] |}.

(** Whether the pass that starts at a frame takes a step on whose point
    one of the bracket updates fires. *)
Definition updates_bracket (model : Model) (ode_run : Stepper) (a : SolveArgs)
    (step_size : Q) (f : Frame) : bool :=
  match _update_solution model ode_run (self f) step_size with
  | Ok s => _exhausted_firms model s (tol a) || _converged_workers model s (tol a)
  | Raise _ => false
  end.

(** [passes n k f0 f]: from [f0] the loop takes [n] passes, each entered
    with a successful integrator and each handing over to the loop test,
    [k] of them by a bracket update, and then stands at [f]. *)
Inductive passes (model : Model) (ode_run : Stepper) (a : SolveArgs) (step_size : Q)
  : nat -> nat -> Frame -> Frame -> Prop :=
| passes_none (f : Frame) : passes model ode_run a step_size 0 0 f f
| passes_more (n k : nat) (f f1 f2 : Frame) :
    passes model ode_run a step_size n k f f1 ->
    successful (integrator (self f1)) = true ->
    loop_body model ode_run a step_size f1 = Ok (Next f2) ->
    passes model ode_run a step_size (S n)
      (if updates_bracket model ode_run a step_size f1 then S k else k) f f2.

(** ** The compiled functions and their cache

    The eight properties [_numeric_input_types] ... [_numeric_wage] are one
    piece of code up to the attribute they fill and the symbolic expression
    they compile; the attribute is an argument here. An attribute that is
    [None] is an attribute with no cached function. What sympy and scipy
    provide is a parameter. *)
Module Compiler.

(** The private attributes that hold a compiled function. *)
Inductive Attr : Type :=
| numeric_input_types
| numeric_jacobian
| numeric_profit
| numeric_quantities
| numeric_span_of_control
| numeric_system
| numeric_type_resource
| numeric_wage.

#[global] Instance Attr_eq_dec : EqDecision Attr.
Proof. solve_decision. Defined.

(** The operations of sympy and scipy that the solver uses:
    [sym.lambdify(args, expr, modules)] with the fixed modules, the
    substitution [expr.subs({'mu': V[0], 'theta': V[1]})], [sym.Matrix],
    [matrix.jacobian([V[0], V[1]])], [sym.var(names)], the deferred vector
    [V], a new [integrate.ode] bound to the solver's [evaluate_rhs] and
    [evaluate_jacobian], and the call [f(x, V, *params)]. *)
Record Library (Expr Fn Ode Val : Type) : Type := {
  lambdify : list Expr -> Expr -> Fn;
  subs : Expr -> Expr;
  Matrix : list Expr -> Expr;
  jacobian : Expr -> Expr;
  var : list string -> list Expr;
  V : Expr;
  ode : Ode;
  call : Fn -> Q -> Q * Q -> list Q -> Val
}.
Arguments lambdify {Expr Fn Ode Val} _ _ _.
Arguments subs {Expr Fn Ode Val} _ _.
Arguments Matrix {Expr Fn Ode Val} _ _.
Arguments jacobian {Expr Fn Ode Val} _ _.
Arguments var {Expr Fn Ode Val} _ _.
Arguments V {Expr Fn Ode Val} _.
Arguments ode {Expr Fn Ode Val} _.
Arguments call {Expr Fn Ode Val} _ _ _ _ _.

(** [model.matching]: the symbolic expressions of the equilibrium. *)
Record Matching (Expr : Type) : Type := {
  input_types : Expr;
  quantities : Expr;
  span_of_control : Expr;
  type_resource : Expr;
  wage : Expr;
  profit : Expr;
  mu_prime : Expr;
  theta_prime : Expr
}.
Arguments input_types {Expr} _.
Arguments quantities {Expr} _.
Arguments span_of_control {Expr} _.
Arguments type_resource {Expr} _.
Arguments wage {Expr} _.
Arguments profit {Expr} _.
Arguments mu_prime {Expr} _.
Arguments theta_prime {Expr} _.

(** The symbolic side of a [models.Model]: [model.matching], the dictionary
    [model.params] (names and values, in the order of the dictionary) and
    [model.workers.var]. *)
Record SymModel (Expr : Type) : Type := {
  matching : Matching Expr;
  params : list (string * Q);
  workers_var : Expr
}.
Arguments matching {Expr} _.
Arguments params {Expr} _.
Arguments workers_var {Expr} _.

(** What a caller may hand over as the model. *)
Inductive PyObject (Expr : Type) : Type :=
| Model_instance (m : SymModel Expr)
| other_instance (class_name : string).
Arguments Model_instance {Expr} m.
Arguments other_instance {Expr} class_name.

(** The result of an assignment that may raise [AttributeError]. *)
Inductive checked (A : Type) : Type :=
| Valid (a : A)
| AttributeError (mesg : string).
Arguments Valid {A} a.
Arguments AttributeError {A} mesg.

(** The attributes of a solver that the cache is about. *)
Record ShootingSolver (Expr Fn Ode : Type) : Type := {
  _model : SymModel Expr;
  cached : Attr -> option Fn;
  __integrator : option Ode
}.
Arguments _model {Expr Fn Ode} _.
Arguments cached {Expr Fn Ode} _ _.
Arguments __integrator {Expr Fn Ode} _.

Section Cache.

Context {Expr Fn Ode Val : Type} (lib : Library Expr Fn Ode Val).

Definition _symbolic_variables (self : ShootingSolver Expr Fn Ode) : list Expr :=
  [workers_var (_model self); V lib].

Definition _symbolic_params (self : ShootingSolver Expr Fn Ode) : list Expr :=
  var lib (map fst (params (_model self))).

Definition _symbolic_args (self : ShootingSolver Expr Fn Ode) : list Expr :=
  _symbolic_variables self ++ _symbolic_params self.

Definition _symbolic_equations (self : ShootingSolver Expr Fn Ode) : list Expr :=
  [mu_prime (matching (_model self)); theta_prime (matching (_model self))].

Definition _symbolic_system (self : ShootingSolver Expr Fn Ode) : Expr :=
  subs lib (Matrix lib (_symbolic_equations self)).

Definition _symbolic_jacobian (self : ShootingSolver Expr Fn Ode) : Expr :=
  jacobian lib (_symbolic_system self).

Definition _symbolic_input_types (self : ShootingSolver Expr Fn Ode) : Expr :=
  subs lib (input_types (matching (_model self))).

Definition _symbolic_quantities (self : ShootingSolver Expr Fn Ode) : Expr :=
  subs lib (quantities (matching (_model self))).

Definition _symbolic_span_of_control (self : ShootingSolver Expr Fn Ode) : Expr :=
  subs lib (span_of_control (matching (_model self))).

Definition _symbolic_type_resource (self : ShootingSolver Expr Fn Ode) : Expr :=
  subs lib (type_resource (matching (_model self))).

Definition _symbolic_wage (self : ShootingSolver Expr Fn Ode) : Expr :=
  subs lib (wage (matching (_model self))).

Definition _symbolic_profit (self : ShootingSolver Expr Fn Ode) : Expr :=
  subs lib (profit (matching (_model self))).

(** The expression that each cached attribute is compiled from. *)
Definition _symbolic (k : Attr) (self : ShootingSolver Expr Fn Ode) : Expr :=
  match k with
  | numeric_input_types => _symbolic_input_types self
  | numeric_jacobian => _symbolic_jacobian self
  | numeric_profit => _symbolic_profit self
  | numeric_quantities => _symbolic_quantities self
  | numeric_span_of_control => _symbolic_span_of_control self
  | numeric_system => _symbolic_system self
  | numeric_type_resource => _symbolic_type_resource self
  | numeric_wage => _symbolic_wage self
  end.

(** The property [_numeric_<k>]: compile on the first read, then return
    the attribute. *)
Definition _numeric (k : Attr) (self : ShootingSolver Expr Fn Ode)
  : Fn * ShootingSolver Expr Fn Ode :=
  match cached self k with
  | None =>
      let f := lambdify lib (_symbolic_args self) (_symbolic k self) in
      (f, {| _model := _model self;
             cached := fun k' => if decide (k' = k) then Some f else cached self k';
             __integrator := __integrator self |})
  | Some f => (f, self)
  end.

(** The property [integrator]. *)
Definition integrator (self : ShootingSolver Expr Fn Ode)
  : Ode * ShootingSolver Expr Fn Ode :=
  match __integrator self with
  | None =>
      (ode lib, {| _model := _model self;
                   cached := cached self;
                   __integrator := Some (ode lib) |})
  | Some ig => (ig, self)
  end.

Definition _clear_cache (self : ShootingSolver Expr Fn Ode) : ShootingSolver Expr Fn Ode :=
  {| _model := _model self;
     cached := fun _ => None;
     __integrator := None |}.

Definition _validate_model (model : PyObject Expr) : checked (SymModel Expr) :=
  match model with
  | Model_instance m => Valid m
  | other_instance class_name =>
      AttributeError
        ("Attribute 'model' must have type models.Model, not " ++ class_name ++ ".")
  end.

(** The setter of [model]. *)
Definition set_model (self : ShootingSolver Expr Fn Ode) (model : PyObject Expr)
  : checked (ShootingSolver Expr Fn Ode) :=
  match _validate_model model with
  | Valid m =>
      Valid (_clear_cache {| _model := m;
                             cached := cached self;
                             __integrator := __integrator self |})
  | AttributeError mesg => AttributeError mesg
  end.

(** [ShootingSolver(model)]: the class attributes are all [None]. *)
Definition __init__ (model : PyObject Expr) : checked (ShootingSolver Expr Fn Ode) :=
  match _validate_model model with
  | Valid m =>
      Valid (_clear_cache {| _model := m;
                             cached := fun _ => None;
                             __integrator := None |})
  | AttributeError mesg => AttributeError mesg
  end.

(** The call common to the [evaluate_...] methods:
    [self._numeric_<k>(x, V, *self.model.params.values())]. *)
Definition call_numeric (k : Attr) (self : ShootingSolver Expr Fn Ode) (x : Q) (v : Q * Q)
  : Val * ShootingSolver Expr Fn Ode :=
  let '(f, self') := _numeric k self in
  (call lib f x v (map snd (params (_model self))), self').

(** What a caller can do to a solver between two evaluations: read a
    compiled function or the integrator, or assign a model (an assignment
    that raises leaves the solver as it was). *)
Inductive Op : Type :=
| Read (k : Attr)
| ReadIntegrator
| Assign (model : PyObject Expr).

Definition apply_op (self : ShootingSolver Expr Fn Ode) (op : Op)
  : ShootingSolver Expr Fn Ode :=
  match op with
  | Read k => snd (_numeric k self)
  | ReadIntegrator => snd (integrator self)
  | Assign model =>
      match set_model self model with
      | Valid self' => self'
      | AttributeError _ => self
      end
  end.

(** Every cached function is the one compiled from the model that the
    solver holds. *)
Definition coherent (self : ShootingSolver Expr Fn Ode) : Prop :=
  forall (k : Attr) (f : Fn),
    cached self k = Some f ->
    f = lambdify lib (_symbolic_args self) (_symbolic k self).

(** The model object changed in place by its owner: the solver sees the new
    contents and its attributes are untouched. *)
Definition mutated (self : ShootingSolver Expr Fn Ode) (m : SymModel Expr)
  : ShootingSolver Expr Fn Ode :=
  {| _model := m; cached := cached self; __integrator := __integrator self |}.

End Cache.

End Compiler.

(** A library over strings, for concrete instances: an expression is its
    text, a compiled function is the pair of its arguments and its body, and
    a call gives the sum of the parameter values. *)
Definition text_library : Compiler.Library string (list string * string) unit Q :=
  {| Compiler.lambdify := fun args expr => (args, expr);
     Compiler.subs := fun e => e;
     Compiler.Matrix := fun es => String.concat ";"%string es;
     Compiler.jacobian := fun e => ("J(" ++ e ++ ")")%string;
     Compiler.var := fun names => names;
     Compiler.V := "V"%string;
     Compiler.ode := tt;
     Compiler.call := fun _ _ _ ps => fold_right Qplus 0 ps |}.

Definition text_model (alpha : Q) : Compiler.SymModel string :=
  {| Compiler.matching :=
       {| Compiler.input_types := "Fxy"%string; Compiler.quantities := "Flr"%string;
          Compiler.span_of_control := "Fyl"%string; Compiler.type_resource := "Fxr"%string;
          Compiler.wage := "w"%string; Compiler.profit := "pi"%string;
          Compiler.mu_prime := "mu'"%string; Compiler.theta_prime := "theta'"%string |};
     Compiler.params := [("alpha"%string, alpha)];
     Compiler.workers_var := "x"%string |}.

(** * Properties *)

(** ** Comparisons *)

Lemma Qgtb_lt a b : Qgtb a b = true <-> b < a.
Proof.
  unfold Qgtb. rewrite negb_true_iff. split; intros H.
  - apply Qnot_le_lt. intros Hle. apply Qle_bool_iff in Hle. congruence.
  - destruct (Qle_bool a b) eqn:E; [|reflexivity].
    apply Qle_bool_iff in E. lra.
Qed.

Lemma Qgtb_le a b : Qgtb a b = false <-> a <= b.
Proof.
  unfold Qgtb. rewrite negb_false_iff. apply Qle_bool_iff.
Qed.

Lemma Qltb_lt a b : Qltb a b = true <-> a < b.
Proof. unfold Qltb. apply (Qgtb_lt b a). Qed.

Lemma Qltb_le a b : Qltb a b = false <-> b <= a.
Proof. unfold Qltb. apply (Qgtb_le b a). Qed.

Lemma Qle_bool_false a b : Qle_bool a b = false <-> b < a.
Proof.
  rewrite <- Qgtb_lt. unfold Qgtb. apply iff_sym, negb_true_iff.
Qed.

Lemma if_id (b : bool) : (if b then true else false) = b.
Proof. destruct b; reflexivity. Qed.

Lemma assert_Ok (c : bool) (mesg : string) (u : unit) :
  assert c mesg = Ok u -> c = true.
Proof. destruct c; simpl; [reflexivity | discriminate]. Qed.

Lemma assert_Raise (c : bool) (mesg : string) (e : exn) :
  assert c mesg = Raise e -> c = false /\ e = AssertionError mesg.
Proof. destruct c; simpl; [discriminate | intros [= <-]; auto]. Qed.

(** ** The classification tests of the driver *)

Section Classification.

Context (model : Model).

Lemma _converged_firms_iff (s : Solver) (tol : Q) :
  _converged_firms model s tol = true
  <-> Qabs (idx0 (y (integrator s)) - lower (firms model)) <= tol.
Proof. unfold _converged_firms. rewrite if_id. apply Qle_bool_iff. Qed.

Lemma _exhausted_firms_iff (s : Solver) (tol : Q) :
  _exhausted_firms model s tol = true
  <-> idx0 (y (integrator s)) - lower (firms model) < - tol.
Proof. unfold _exhausted_firms. rewrite if_id. apply Qltb_lt. Qed.

Lemma _guess_firm_size_upper_too_low_iff (s : Solver) (bound tol : Q) :
  _guess_firm_size_upper_too_low s bound tol = true
  <-> Qabs (idx1 (y (integrator s)) - bound) <= tol.
Proof. apply Qle_bool_iff. Qed.

Lemma _converged_workers_iff (s : Solver) (tol : Q) :
  _converged_workers model s tol = true
  <-> Qabs (t (integrator s)
            - (if is_positive model then lower (workers model)
               else upper (workers model))) <= tol.
Proof.
  unfold _converged_workers.
  destruct (is_positive model); rewrite if_id; apply Qle_bool_iff.
Qed.

(** The two firm tests never hold together. *)
Lemma converged_not_exhausted (s : Solver) (tol : Q) :
  _converged_firms model s tol = true -> _exhausted_firms model s tol = false.
Proof.
  intros Hc. apply _converged_firms_iff in Hc.
  destruct (_exhausted_firms model s tol) eqn:He; [|reflexivity].
  apply _exhausted_firms_iff in He.
  revert Hc. apply Qabs_case; intros; lra.
Qed.

End Classification.

(** C1 (as amended). The firm tests of the shooting driver read component 0
    of the integrator state, the matching value (firm productivity): firms
    have converged exactly when that component is within [tol] of the firm
    lower bound, and firms are exhausted exactly when it lies below the firm
    lower bound by more than [tol]. *)
Theorem firm_tests_read_matching_value :
  forall (model : Model) (s : Solver) (tol : Q),
    (_converged_firms model s tol = true
     <-> Qabs (idx0 (y (integrator s)) - lower (firms model)) <= tol)
    /\ (_exhausted_firms model s tol = true
        <-> idx0 (y (integrator s)) < lower (firms model) - tol).
Proof.
  intros model s tol. split.
  - apply _converged_firms_iff.
  - rewrite _exhausted_firms_iff. split; intros; lra.
Qed.

(** C1 (as stated) fails: with the matching value at 0 and the firm size at
    the firm lower bound 1, the firm size has converged and is not exhausted,
    while the driver reports the opposite on both tests. *)
Lemma firm_tests_ignore_firm_size :
  let model := toy_model "positive" 4 2 in
  let s := toy_solver 2 0 1 in
  let tol := 1 # 1000000 in
  (_converged_firms model s tol = false /\ firm_size_converged model s tol)
  /\ (_exhausted_firms model s tol = true /\ ~ firm_size_exhausted model s tol).
Proof.
  cbv zeta. split; split.
  - reflexivity.
  - unfold firm_size_converged. simpl. apply Qle_bool_iff. reflexivity.
  - reflexivity.
  - unfold firm_size_exhausted. simpl. intros H.
    apply Qltb_lt in H. discriminate H.
Qed.

(** ** The trajectory validator *)

Section Validation.

Context (model : Model).

Lemma _check_pam_iff (r : Row) :
  _check_pam model r = true <-> pam_condition model r.
Proof.
  unfold _check_pam, pam_condition, np_isclose,
    evaluate_input_types, evaluate_quantities,
    evaluate_span_of_control, evaluate_type_resource.
  cbv zeta.
  set (LHS := _numeric_input_types model (row_x r) (row_V r)
              * _numeric_quantities model (row_x r) (row_V r)).
  set (RHS := _numeric_span_of_control model (row_x r) (row_V r)
              * _numeric_type_resource model (row_x r) (row_V r)).
  assert (Hd : Qabs (LHS - RHS - 0) == Qabs (LHS - RHS))
    by (apply Qabs_wd; ring).
  assert (Hb : (1 # 100000000) + (1 # 100000) * Qabs 0 == 1 # 100000000)
    by reflexivity.
  destruct (Qle_bool (Qabs (LHS - RHS - 0))
              ((1 # 100000000) + (1 # 100000) * Qabs 0)) eqn:E.
  - apply Qle_bool_iff in E. rewrite Hd, Hb in E. tauto.
  - apply Qle_bool_false in E. rewrite Hd, Hb in E.
    rewrite Qgtb_lt. split; [tauto | intros [H | H]; [lra | exact H]].
Qed.

Lemma all_check_iff (solution : list Row) :
  forallb id (map (_check_pam model) solution) = true
  <-> Forall (pam_condition model) solution.
Proof.
  induction solution as [|r rows IH]; simpl.
  - split; [constructor | reflexivity].
  - unfold id at 1. rewrite andb_true_iff, IH, _check_pam_iff.
    split; [intros [? ?]; constructor; assumption | intros H; inversion H; auto].
Qed.

(** What the validator does: under positive assortativity it raises
    exactly when some row misses the condition, under negative
    assortativity exactly when all rows meet it. *)
Lemma _validate_solution_raises_iff (solution : list Row) :
  (exists e, _validate_solution model solution = Raise e)
  <-> (assortativity model = "positive"%string
       /\ ~ Forall (pam_condition model) solution)
      \/ (assortativity model = "negative"%string
          /\ Forall (pam_condition model) solution).
Proof.
  unfold _validate_solution, is_positive, is_negative. cbv zeta.
  rewrite <- all_check_iff.
  destruct (String.eqb_spec (assortativity model) "positive") as [Hp | Hp];
    destruct (String.eqb_spec (assortativity model) "negative") as [Hn | Hn];
    destruct (forallb id (map (_check_pam model) solution)); simpl;
    split;
    try (intros [e He]; discriminate He);
    try (intros _; eexists; reflexivity);
    try (intros _; left; split; [assumption | discriminate]);
    try (intros _; right; split; [assumption | reflexivity]);
    try (intros [[? ?] | [? ?]]; congruence).
Qed.

End Validation.

(** C2. Under negative assortativity the validator lets a trajectory pass
    in which a row meets the PAM condition: of the two rows below the first
    meets it (LHS = 2 > RHS = 1), the second does not (LHS = 1/2 < RHS = 1),
    and no validation error is raised. The claim requires one, every row
    having to fail the condition. *)
Theorem validate_negative_accepts_mixed_rows :
  let model := mixed_model "negative" in
  let solution := [toy_row 2 3 1; toy_row (1 # 2) 1 1] in
  _check_pam model (toy_row 2 3 1) = true
  /\ _check_pam model (toy_row (1 # 2) 1 1) = false
  /\ _validate_solution model solution = Ok tt.
Proof. cbv zeta. repeat split; reflexivity. Qed.

(** ** Resetting and extending the trajectory *)

Section Updates.

Context (model : Model) (ode_run : Stepper).

Lemma evaluate_wage_cases (x : Q) (V : Vec2) :
  (0 < _numeric_wage model x V
   /\ evaluate_wage model x V = Ok (_numeric_wage model x V))
  \/ (_numeric_wage model x V <= 0
      /\ evaluate_wage model x V
         = Raise (AssertionError "Wage should be non-negative!")).
Proof.
  unfold evaluate_wage. cbv zeta.
  destruct (Qgtb (_numeric_wage model x V) 0) eqn:E; simpl.
  - left. apply Qgtb_lt in E. auto.
  - right. apply Qgtb_le in E. auto.
Qed.

Lemma evaluate_profit_cases (x : Q) (V : Vec2) :
  (0 < _numeric_profit model x V
   /\ evaluate_profit model x V = Ok (_numeric_profit model x V))
  \/ (_numeric_profit model x V <= 0
      /\ evaluate_profit model x V
         = Raise (AssertionError "Profit should be non-negative!")).
Proof.
  unfold evaluate_profit. cbv zeta.
  destruct (Qgtb (_numeric_profit model x V) 0) eqn:E; simpl.
  - left. apply Qgtb_lt in E. auto.
  - right. apply Qgtb_le in E. auto.
Qed.

(** [_reset_solution] either seeds the trajectory with the boundary row
    and restarts the integrator at the anchor, or fails on a wage or
    profit that is not positive there. *)
Lemma _reset_solution_cases (guess : Q) :
  let V : Vec2 := (upper (firms model), guess) in
  match _reset_solution model guess with
  | Ok s =>
      s = {| integrator := set_initial_value V (anchor model);
             _solution := [boundary_row model guess] |}
      /\ 0 < _numeric_wage model (anchor model) V
      /\ 0 < _numeric_profit model (anchor model) V
  | Raise e =>
      exists mesg, e = AssertionError mesg
      /\ (_numeric_wage model (anchor model) V <= 0
          \/ _numeric_profit model (anchor model) V <= 0)
  end.
Proof.
  cbv zeta. unfold _reset_solution, boundary_row, anchor. cbv zeta.
  destruct (is_positive model).
  - destruct (evaluate_wage_cases (upper (workers model)) (upper (firms model), guess))
      as [[Hw ->] | [Hw ->]]; simpl; [|eauto].
    destruct (evaluate_profit_cases (upper (workers model)) (upper (firms model), guess))
      as [[Hp ->] | [Hp ->]]; simpl; eauto.
  - destruct (evaluate_wage_cases (lower (workers model)) (upper (firms model), guess))
      as [[Hw ->] | [Hw ->]]; simpl; [|eauto].
    destruct (evaluate_profit_cases (lower (workers model)) (upper (firms model), guess))
      as [[Hp ->] | [Hp ->]]; simpl; eauto.
Qed.

(** [_update_initial_guess] returns the midpoint of a bracket wider than
    machine epsilon and fails on any other. *)
Lemma _update_initial_guess_cases (lo hi : Q) :
  (float_eps < hi - lo
   /\ _update_initial_guess lo hi = Ok ((1 # 2) * (lo + hi)))
  \/ (hi - lo <= float_eps
      /\ _update_initial_guess lo hi
         = Raise (AssertionError
                    "Upper and lower bounds are identical: check solver tols!")).
Proof.
  unfold _update_initial_guess. cbv zeta.
  destruct (Qgtb (hi - lo) float_eps) eqn:E; simpl.
  - left. apply Qgtb_lt in E. auto.
  - right. apply Qgtb_le in E. auto.
Qed.

Lemma _update_solution_cases (s : Solver) (step_size : Q) :
  let ig := stepped model ode_run s step_size in
  match _update_solution model ode_run s step_size with
  | Ok s' =>
      s' = {| integrator := ig;
              _solution := _solution s
                           ++ [ {| row_x := t ig; row_V := y ig;
                                   row_wage := _numeric_wage model (t ig) (y ig);
                                   row_profit := _numeric_profit model (t ig) (y ig) |} ] |}
      /\ 0 < idx1 (y ig)
      /\ 0 < _numeric_wage model (t ig) (y ig)
      /\ 0 < _numeric_profit model (t ig) (y ig)
  | Raise e =>
      exists mesg, e = AssertionError mesg
      /\ (idx1 (y ig) <= 0
          \/ _numeric_wage model (t ig) (y ig) <= 0
          \/ _numeric_profit model (t ig) (y ig) <= 0)
  end.
Proof.
  cbv zeta. unfold _update_solution. fold (stepped model ode_run s step_size).
  set (ig := stepped model ode_run s step_size). cbv zeta.
  destruct (Qgtb (idx1 (y ig)) 0) eqn:E; simpl.
  - apply Qgtb_lt in E.
    destruct (evaluate_wage_cases (t ig) (y ig)) as [[Hw ->] | [Hw ->]]; simpl;
      [|eauto 6].
    destruct (evaluate_profit_cases (t ig) (y ig)) as [[Hp ->] | [Hp ->]]; simpl;
      eauto 8.
  - apply Qgtb_le in E. eauto 6.
Qed.

End Updates.

(** C4. [solve] starts from the bracket [0, guess_firm_size_upper] with its
    midpoint as the first guess; the trajectory is seeded with the single
    boundary row whose state is (firm upper bound, guess), taken at the
    worker upper bound under positive assortativity and at the worker lower
    bound otherwise, with wage and profit evaluated at that point, and the
    integrator starts there. The only way for the initialisation to fail is
    a wage or profit that is not positive at that point. *)
Theorem solve_init_bracket_and_boundary_row :
  forall (model : Model) (a : SolveArgs),
    let guess := (1 # 2) * (guess_firm_size_upper a + 0) in
    let x0 := if String.eqb (assortativity model) "positive"
              then upper (workers model) else lower (workers model) in
    let V0 : Vec2 := (upper (firms model), guess) in
    match solve_init model a with
    | Ok f =>
        firm_size_lower f = 0
        /\ firm_size_upper f = guess_firm_size_upper a
        /\ guess_firm_size f = guess
        /\ _solution (self f)
           = [ {| row_x := x0; row_V := V0;
                  row_wage := _numeric_wage model x0 V0;
                  row_profit := _numeric_profit model x0 V0 |} ]
        /\ t (integrator (self f)) = x0
        /\ y (integrator (self f)) = V0
        /\ successful (integrator (self f)) = true
        /\ 0 < _numeric_wage model x0 V0
        /\ 0 < _numeric_profit model x0 V0
        /\ stdout f = []
    | Raise e =>
        exists mesg, e = AssertionError mesg
        /\ (_numeric_wage model x0 V0 <= 0 \/ _numeric_profit model x0 V0 <= 0)
    end.
Proof.
  intros model a. cbv zeta. unfold solve_init. cbv zeta.
  pose proof (_reset_solution_cases model ((1 # 2) * (guess_firm_size_upper a + 0))) as H.
  cbv zeta in H. unfold anchor, boundary_row, anchor, is_positive in H.
  destruct (_reset_solution model ((1 # 2) * (guess_firm_size_upper a + 0)))
    as [s | e]; simpl.
  - destruct H as (-> & Hw & Hp). simpl. repeat split; assumption.
  - exact H.
Qed.

(** X17. The rows that a step appends. [_update_solution] appends a row to
    the trajectory only together with the checks
    on it: when [_update_solution] returns, the trajectory has grown by
    exactly one row, whose firm size, wage and profit are all strictly
    positive; when any of the three is not positive at the point the
    integrator reached, [_update_solution] raises an assertion error, and
    that error ends the run of the loop: no row is recorded and no
    classification branch is taken. *)
Theorem appended_row_positive_or_fatal :
  forall (model : Model) (ode_run : Stepper) (s : Solver) (step_size : Q),
    let ig := stepped model ode_run s step_size in
    (0 < idx1 (y ig)
     /\ 0 < _numeric_wage model (t ig) (y ig)
     /\ 0 < _numeric_profit model (t ig) (y ig)
     /\ exists step,
         _update_solution model ode_run s step_size
         = Ok {| integrator := ig; _solution := _solution s ++ [step] |}
         /\ row_x step = t ig
         /\ row_V step = y ig
         /\ 0 < row_firm_size step
         /\ 0 < row_wage step
         /\ 0 < row_profit step)
    \/ ((idx1 (y ig) <= 0
         \/ _numeric_wage model (t ig) (y ig) <= 0
         \/ _numeric_profit model (t ig) (y ig) <= 0)
        /\ exists mesg,
            _update_solution model ode_run s step_size
            = Raise (AssertionError mesg)
            /\ forall (a : SolveArgs) (f : Frame) (fuel : nat),
                self f = s ->
                successful (integrator s) = true ->
                _guess_firm_size_upper_too_low s (guess_firm_size_upper a) (tol a)
                = false ->
                solve_loop model ode_run a step_size (S fuel) f
                = Raised (AssertionError mesg)).
Proof.
  intros model ode_run s step_size. cbv zeta.
  pose proof (_update_solution_cases model ode_run s step_size) as H.
  cbv zeta in H.
  destruct (_update_solution model ode_run s step_size) as [s' | e] eqn:E.
  - left. destruct H as (-> & H1 & Hw & Hp).
    repeat split; try assumption.
    eexists. split; [reflexivity|]. simpl. repeat split; assumption.
  - right. destruct H as (mesg & -> & H). split; [exact H|].
    exists mesg. split; [reflexivity|].
    intros a f fuel Hs Hok Hlow. simpl. rewrite Hs, Hok.
    unfold loop_body. rewrite Hs, Hlow. rewrite E. reflexivity.
Qed.

(** A step of the toy model that leaves the firm size at zero is fatal. *)
Lemma appended_row_positive_or_fatal_witness :
  solve_loop (toy_model "positive" 4 2) euler (toy_args 8 (1 # 1000000) 3 false)
    (1 # 2) 1 (toy_frame (toy_solver 2 3 0) 0 8 4)
  = Raised (AssertionError "Firm size should be non-negative!").
Proof.
  destruct (appended_row_positive_or_fatal (toy_model "positive" 4 2) euler
              (toy_solver 2 3 0) (1 # 2)) as [(H & _) | (_ & mesg & E & H)].
  - vm_compute in H. discriminate H.
  - vm_compute in E. injection E as <-.
    apply H; reflexivity.
Defined.

(** ** One pass of the loop *)

Section Pass.

Context (model : Model) (ode_run : Stepper).

(** The chain of branches after a step, with the two branches for
    exhausted firms merged. *)
Lemma loop_body_after_step (a : SolveArgs) (step_size : Q) (f : Frame) (s : Solver) :
  _guess_firm_size_upper_too_low (self f) (guess_firm_size_upper a) (tol a) = false ->
  _update_solution model ode_run (self f) step_size = Ok s ->
  loop_body model ode_run a step_size f
  = if _converged_workers model s (tol a) && _converged_firms model s (tol a) then
      _ ← _validate_solution model (_solution s);
      Ok (Break BreakSuccess (print SuccessAllMatched (with_self f s)))
    else if _exhausted_firms model s (tol a) then
      restart model
        (with_lower
           (print_if (message a)
              (if _converged_workers model s (tol a)
               then ExhaustedFirmsWasTooLow (guess_firm_size f)
               else ExhaustedFirmsIsTooLow (guess_firm_size f))
              (with_self f s))
           (guess_firm_size f))
    else if _converged_workers model s (tol a) then
      restart model
        (with_upper
           (print_if (message a) (ExhaustedWorkersTooHigh (guess_firm_size f))
              (with_self f s))
           (guess_firm_size f))
    else Ok (Next (with_self f s)).
Proof.
  intros Hlow Hs. unfold loop_body. rewrite Hlow, Hs. simpl.
  destruct (_converged_workers model s (tol a));
    destruct (_converged_firms model s (tol a));
    destruct (_exhausted_firms model s (tol a));
    destruct (message a); reflexivity.
Qed.

Lemma print_if_fields (flag : bool) (msg : Mesg) (f : Frame) :
  self (print_if flag msg f) = self f
  /\ firm_size_lower (print_if flag msg f) = firm_size_lower f
  /\ firm_size_upper (print_if flag msg f) = firm_size_upper f
  /\ guess_firm_size (print_if flag msg f) = guess_firm_size f.
Proof. destruct flag; simpl; auto. Qed.

Lemma restart_restarted (f : Frame) :
  restarted_from model (firm_size_lower f) (firm_size_upper f) (restart model f).
Proof.
  unfold restarted_from, restart. cbv zeta.
  destruct (_update_initial_guess_cases (firm_size_lower f) (firm_size_upper f))
    as [[Hw ->] | [Hw ->]]; simpl; [|eauto].
  pose proof (_reset_solution_cases model
                ((1 # 2) * (firm_size_lower f + firm_size_upper f))) as H.
  cbv zeta in H.
  destruct (_reset_solution model
              ((1 # 2) * (firm_size_lower f + firm_size_upper f))) as [s | e]; simpl.
  - destruct H as (-> & _ & _). simpl. auto 6.
  - destruct H as (mesg & -> & H). exists mesg. tauto.
Qed.

End Pass.

(** C3. In a pass that took its step and is not the terminal success case:
    when firms are exhausted, whether or not workers converged, the pass
    restarts from the bracket whose lower bound is the current guess and
    whose upper bound is unchanged; when workers converged and firms are
    not exhausted, it restarts from the bracket whose upper bound is the
    current guess and whose lower bound is unchanged. Restarting means: the
    new guess is the midpoint of the updated bracket, the trajectory holds
    only the boundary row built from the new guess and the integrator is
    back at the boundary; the pass raises instead only when the updated
    bracket is no wider than machine epsilon or wage or profit is not
    positive at the new boundary. *)
Theorem bracket_update_follows_decision_table :
  forall (model : Model) (ode_run : Stepper) (a : SolveArgs) (step_size : Q)
         (f : Frame) (s : Solver),
    _guess_firm_size_upper_too_low (self f) (guess_firm_size_upper a) (tol a) = false ->
    _update_solution model ode_run (self f) step_size = Ok s ->
    _converged_workers model s (tol a) && _converged_firms model s (tol a) = false ->
    (_exhausted_firms model s (tol a) = true ->
     restarted_from model (guess_firm_size f) (firm_size_upper f)
       (loop_body model ode_run a step_size f))
    /\ (_converged_workers model s (tol a) = true ->
        _exhausted_firms model s (tol a) = false ->
        restarted_from model (firm_size_lower f) (guess_firm_size f)
          (loop_body model ode_run a step_size f)).
Proof.
  intros model ode_run a step_size f s Hlow Hs Hterm.
  rewrite (loop_body_after_step model ode_run a step_size f s Hlow Hs), Hterm.
  split.
  - intros ->.
    match goal with |- restarted_from _ _ _ (restart _ ?g) =>
      pose proof (restart_restarted model g) as H end.
    simpl in H.
    destruct (print_if_fields (message a)
                (if _converged_workers model s (tol a)
                 then ExhaustedFirmsWasTooLow (guess_firm_size f)
                 else ExhaustedFirmsIsTooLow (guess_firm_size f))
                (with_self f s)) as (_ & _ & Hu & Hg).
    rewrite ?Hu, ?Hg in H. exact H.
  - intros -> ->.
    match goal with |- restarted_from _ _ _ (restart _ ?g) =>
      pose proof (restart_restarted model g) as H end.
    simpl in H.
    destruct (print_if_fields (message a)
                (ExhaustedWorkersTooHigh (guess_firm_size f))
                (with_self f s)) as (_ & Hl & _ & Hg).
    rewrite ?Hl, ?Hg in H. exact H.
Qed.

(** Witness for C3: in the toy model with guess 4 in the bracket [0, 8] and
    two knots, the first step reaches the worker lower bound with the
    matching value at 2, above the firm lower bound 1: workers converged,
    firms not exhausted, and the pass restarts from [0, 4]. *)
Lemma bracket_update_follows_decision_table_witness :
  restarted_from (toy_model "positive" 4 2) 0 4
    (loop_body (toy_model "positive" 4 2) euler (toy_args 8 (1 # 1000000) 2 false) 1
       (toy_frame (toy_solver 2 3 4) 0 8 4)).
Proof.
  refine (proj2 (bracket_update_follows_decision_table
                   (toy_model "positive" 4 2) euler (toy_args 8 (1 # 1000000) 2 false) 1
                   (toy_frame (toy_solver 2 3 4) 0 8 4) _ _ _ _) _ _).
  - reflexivity.
  - vm_compute. reflexivity.
  - reflexivity.
  - reflexivity.
  - reflexivity.
Defined.

(** ** The step of the independent variable *)

Lemma solve_step_size_cases (model : Model) (a : SolveArgs) (step_size : Q) :
  solve_step_size model a = Ok step_size ->
  (number_knots a - 1)%Z <> 0%Z
  /\ step_size
     = (upper (workers model) - lower (workers model)) / inject_Z (number_knots a - 1)
  /\ 0 < step_size.
Proof.
  unfold solve_step_size. cbv zeta.
  destruct (Z.eqb_spec (number_knots a - 1) 0) as [Hz | Hz]; [discriminate|].
  destruct (Qgtb ((upper (workers model) - lower (workers model))
                  / inject_Z (number_knots a - 1)) 0) eqn:E; simpl.
  - intros [= <-]. apply Qgtb_lt in E. auto.
  - discriminate.
Qed.

Lemma integrate_reaches (model : Model) (ode_run : Stepper) (ig : Integrator) (target : Q) :
  reaches_target ode_run ->
  successful (integrate model ode_run ig target) = true ->
  t (integrate model ode_run ig target) == target.
Proof.
  intros Hc. unfold integrate, successful.
  destruct (ode_run (evaluate_rhs model) (t ig) (y ig) target) as [[y1 t1] ok] eqn:E.
  simpl. intros H. apply andb_true_iff in H as [_ ->].
  exact (Hc _ _ _ _ _ _ E).
Qed.

(** C5. With a stepper that reaches the targets it reports success for,
    every integration step taken by [solve] moves the independent variable
    by the fixed step size (workerUpper - workerLower) / (numberOfKnots - 1),
    which is positive: downwards under positive assortativity, upwards
    otherwise, so in particular under negative assortativity. *)
Theorem update_solution_steps_by_step_size :
  forall (model : Model) (ode_run : Stepper) (a : SolveArgs) (step_size : Q)
         (s s' : Solver),
    reaches_target ode_run ->
    solve_step_size model a = Ok step_size ->
    _update_solution model ode_run s step_size = Ok s' ->
    successful (integrator s') = true ->
    step_size
    = (upper (workers model) - lower (workers model)) / inject_Z (number_knots a - 1)
    /\ 0 < step_size
    /\ (assortativity model = "positive"%string ->
        t (integrator s') == t (integrator s) - step_size
        /\ t (integrator s') < t (integrator s))
    /\ (assortativity model <> "positive"%string ->
        t (integrator s') == t (integrator s) + step_size
        /\ t (integrator s) < t (integrator s'))
    /\ (assortativity model = "negative"%string ->
        t (integrator s') == t (integrator s) + step_size
        /\ t (integrator s) < t (integrator s')).
Proof.
  intros model ode_run a step_size s s' Hc Hh Hs Hok.
  destruct (solve_step_size_cases model a step_size Hh) as (_ & Heq & Hpos).
  pose proof (_update_solution_cases model ode_run s step_size) as H.
  cbv zeta in H. rewrite Hs in H. destruct H as (-> & _). simpl in Hok |- *.
  unfold stepped, is_positive in *.
  assert (Hneg : assortativity model <> "positive"%string ->
                 t (if (assortativity model =? "positive")%string
                    then integrate model ode_run (integrator s)
                           (t (integrator s) - step_size)
                    else integrate model ode_run (integrator s)
                           (t (integrator s) + step_size))
                 == t (integrator s) + step_size
                 /\ t (integrator s)
                    < t (if (assortativity model =? "positive")%string
                         then integrate model ode_run (integrator s)
                                (t (integrator s) - step_size)
                         else integrate model ode_run (integrator s)
                                (t (integrator s) + step_size))).
  { intros Hn. apply String.eqb_neq in Hn. rewrite Hn in Hok |- *.
    pose proof (integrate_reaches model ode_run _ _ Hc Hok) as Ht.
    split; [exact Ht | rewrite Ht; lra]. }
  repeat split; try assumption.
  - rewrite H, String.eqb_refl in Hok |- *.
    exact (integrate_reaches model ode_run _ _ Hc Hok).
  - rewrite H, String.eqb_refl in Hok |- *.
    rewrite (integrate_reaches model ode_run _ _ Hc Hok). lra.
  - apply Hneg. assumption.
  - apply Hneg. assumption.
  - apply Hneg. rewrite H. discriminate.
  - apply Hneg. rewrite H. discriminate.
Qed.

Lemma euler_reaches_target : reaches_target euler.
Proof.
  intros f t0 y0 target y1 t1. unfold euler. intros [= _ <-]. reflexivity.
Qed.

(** Witness for C5: one step of the toy model from x = 2 with three knots
    lands at 2 - 1/2. *)
Lemma update_solution_steps_by_step_size_witness :
  exists s',
    _update_solution (toy_model "positive" 4 2) euler (toy_solver 2 3 4) (1 # 2) = Ok s'
    /\ t (integrator s') == 2 - (1 # 2).
Proof.
  eexists. split.
  - vm_compute. reflexivity.
  - refine (proj1 (proj1 (proj2 (proj2
        (update_solution_steps_by_step_size (toy_model "positive" 4 2) euler
           (toy_args 8 (1 # 1000000) 3 false) (1 # 2) (toy_solver 2 3 4) _
           euler_reaches_target _ _ _))) _)); reflexivity.
Defined.

(** ** Search infeasibility *)

Lemma restart_collapsed (model : Model) (f : Frame) :
  firm_size_upper f - firm_size_lower f <= float_eps ->
  restart model f
  = Raise (AssertionError "Upper and lower bounds are identical: check solver tols!").
Proof.
  intros Hw. unfold restart.
  destruct (_update_initial_guess_cases (firm_size_lower f) (firm_size_upper f))
    as [[Hw' _] | [_ ->]]; [lra | reflexivity].
Qed.

(** C8 (as amended). Both search-infeasibility conditions end the attempt
    in the pass in which they arise, without a retry. When the firm-size
    component is within [tol] of the caller's upper guess bound, the loop is
    left by a break: [solve] returns normally with the solver as it was, and
    the failure message is printed only if the caller asked for messages.
    When the bracket update of a pass leaves a bracket no wider than machine
    epsilon, the pass raises the assertion error that names the identical
    bounds, and it reaches the caller. *)
Theorem infeasibility_breaks_or_raises :
  forall (model : Model) (ode_run : Stepper) (a : SolveArgs) (step_size : Q)
         (fuel : nat) (f : Frame),
    successful (integrator (self f)) = true ->
    (_guess_firm_size_upper_too_low (self f) (guess_firm_size_upper a) (tol a) = true ->
     solve_loop model ode_run a step_size (S fuel) f
     = Returned BreakGuessTooLow
         (if message a
          then {| self := self f;
                  firm_size_lower := firm_size_lower f;
                  firm_size_upper := firm_size_upper f;
                  guess_firm_size := guess_firm_size f;
                  stdout := stdout f ++ [FailureIncreaseGuess] |}
          else f))
    /\ (forall s : Solver,
         _guess_firm_size_upper_too_low (self f) (guess_firm_size_upper a) (tol a)
         = false ->
         _update_solution model ode_run (self f) step_size = Ok s ->
         _converged_workers model s (tol a) && _converged_firms model s (tol a) = false ->
         (_exhausted_firms model s (tol a) = true
          /\ firm_size_upper f - guess_firm_size f <= float_eps)
         \/ (_exhausted_firms model s (tol a) = false
             /\ _converged_workers model s (tol a) = true
             /\ guess_firm_size f - firm_size_lower f <= float_eps) ->
         solve_loop model ode_run a step_size (S fuel) f
         = Raised (AssertionError
                     "Upper and lower bounds are identical: check solver tols!")).
Proof.
  intros model ode_run a step_size fuel f Hok. split.
  - intros Hlow. simpl. rewrite Hok. unfold loop_body. rewrite Hlow.
    destruct (message a); reflexivity.
  - intros s Hlow Hs Hterm Hcase. simpl. rewrite Hok.
    rewrite (loop_body_after_step model ode_run a step_size f s Hlow Hs), Hterm.
    destruct Hcase as [[-> Hw] | (-> & -> & Hw)].
    + rewrite restart_collapsed; [reflexivity|].
      simpl.
      match goal with |- context [print_if ?b ?m ?g] =>
        destruct (print_if_fields b m g) as (_ & _ & -> & _) end.
      exact Hw.
    + rewrite restart_collapsed; [reflexivity|].
      simpl.
      match goal with |- context [print_if ?b ?m ?g] =>
        destruct (print_if_fields b m g) as (_ & -> & _ & _) end.
      exact Hw.
Qed.

(** Witness for C8: with the guess at the caller's bound the toy run breaks
    out at once; with a bracket of width 2^-52 around the guess the update
    raises. *)
Lemma infeasibility_breaks_or_raises_witness :
  solve_loop (toy_model "positive" 4 2) euler (toy_args 4 (1 # 1000000) 2 true) 1 1
    (toy_frame (toy_solver 2 3 4) 0 4 2)
  = Returned BreakGuessTooLow
      {| self := toy_solver 2 3 4; firm_size_lower := 0; firm_size_upper := 4;
         guess_firm_size := 2; stdout := [FailureIncreaseGuess] |}
  /\ solve_loop (toy_model "positive" 4 2) euler (toy_args 8 (1 # 1000000) 2 true) 1 1
       (toy_frame (toy_solver 2 3 4) (4 - float_eps) (4 + float_eps) 4)
     = Raised (AssertionError
                 "Upper and lower bounds are identical: check solver tols!").
Proof.
  split.
  - refine (proj1 (infeasibility_breaks_or_raises (toy_model "positive" 4 2) euler
                     (toy_args 4 (1 # 1000000) 2 true) 1 0
                     (toy_frame (toy_solver 2 3 4) 0 4 2) _) _); reflexivity.
  - refine (proj2 (infeasibility_breaks_or_raises (toy_model "positive" 4 2) euler
                     (toy_args 8 (1 # 1000000) 2 true) 1 0
                     (toy_frame (toy_solver 2 3 4) (4 - float_eps) (4 + float_eps) 4) _)
              _ _ _ _ _).
    + reflexivity.
    + reflexivity.
    + vm_compute. reflexivity.
    + reflexivity.
    + right. repeat split. vm_compute. discriminate.
Defined.

(** C8 (as stated) fails: with [message] left false, a run whose first
    guess already lies within [tol] of the caller's bound returns normally
    and prints nothing, so the condition is not reported. *)
Lemma guess_too_low_break_is_silent :
  let r := solve (toy_model "positive" 4 2) euler
             (toy_args (1 # 1000000) (1 # 1000000) 3 false) 1 in
  (exists f, r = Returned BreakGuessTooLow f /\ stdout f = []) /\ ~ reported r.
Proof.
  cbv zeta. split.
  - eexists. split; [vm_compute; reflexivity | reflexivity].
  - vm_compute. intros H. exact H.
Qed.

(** ** Reading the solution table *)

Section Table.

Import Pandas.


Lemma read_weaken (h h' : gmap loc (list Row)) (l : loc) (rows : list Row) :
  h !! l = Some rows -> h ⊆ h' -> read h' l = rows.
Proof.
  intros Hl Hsub. unfold read.
  rewrite (lookup_weaken h h' l rows Hl Hsub). reflexivity.
Qed.




End Table.



(** ** The residual *)

Section Residual.

Context (model : Model) {tck : Type}
        (splprep : list Q * list Q -> list Q -> Z -> Q -> res tck)
        (splev : list Q -> tck -> Z -> Z -> res (list Q * list Q)).

Lemma vstack_for_Ok {A : Type} (g : nat -> res A) (range : list nat) :
  (forall i, i ∈ range -> exists v, g i = Ok v) ->
  exists vs,
    vstack_for g range = Ok vs
    /\ length vs = length range
    /\ forall n i, range !! n = Some i ->
         exists v, g i = Ok v /\ vs !! n = Some v.
Proof.
  induction range as [|i range IH]; intros Hg.
  - exists []. split; [reflexivity|]. split; [reflexivity|].
    intros n i Hn. rewrite lookup_nil in Hn. discriminate.
  - destruct (Hg i) as [v Hv]; [left|].
    destruct IH as (vs & Hvs & Hlen & Hall).
    { intros j Hj. apply Hg. right. exact Hj. }
    exists (v :: vs). split; [|split].
    + simpl. rewrite Hv. simpl. unfold mbind, res_bind. rewrite Hvs. reflexivity.
    + simpl. rewrite Hlen. reflexivity.
    + intros [|n] j Hn; simpl in Hn.
      * injection Hn as <-. exists v. auto.
      * apply Hall. exact Hn.
Qed.

Lemma interpolate_Ok (s : Solver) (x : list Q) (k der ext : Z) (c : tck)
      (out : list Q * list Q) :
  splprep (map (column Lfirm_productivity) (solution_rows model s),
           map (column Lfirm_size) (solution_rows model s))
          (map (column Lx) (solution_rows model s)) k 0 = Ok c ->
  splev x c der ext = Ok out ->
  interpolate model splprep splev s x k der ext = Ok (zip (fst out) (snd out)).
Proof.
  intros Hc Hout. unfold interpolate. cbv zeta.
  rewrite Hc. simpl. rewrite Hout. reflexivity.
Qed.

End Residual.


Lemma line_splev_shape : splev_shape line_splev.
Proof.
  intros x c der ext out. unfold line_splev.
  destruct (Z.eqb der 0); intros [= <-]; simpl; rewrite ?length_map; auto.
Qed.


(** ** How long the loop runs *)

Lemma Qle_bool_abs_neg (x tol : Q) : tol < 0 -> Qle_bool (Qabs x) tol = false.
Proof.
  intros Hneg. apply Qle_bool_false.
  pose proof (Qabs_nonneg x). lra.
Qed.

(** With a negative tolerance and a matching value that does not move, no
    test of the loop ever fires. *)
Lemma still_run_goes_on (fuel : nat) :
  forall f : Frame,
    successful (integrator (self f)) = true ->
    idx0 (y (integrator (self f))) == 3 ->
    idx1 (y (integrator (self f))) == 4 ->
    exists f',
      solve_loop (toy_model "positive" 0 2) euler (toy_args 8 (-1) 3 false) (1 # 2) fuel f
      = Running f'.
Proof.
  induction fuel as [|fuel IH]; intros f Hok H0 H1.
  - exists f. simpl. rewrite Hok. reflexivity.
  - set (model := toy_model "positive" 0 2).
    set (a := toy_args 8 (-1) 3 false).
    assert (Hlow : _guess_firm_size_upper_too_low (self f) (guess_firm_size_upper a) (tol a)
                   = false)
      by (apply Qle_bool_abs_neg; reflexivity).
    pose proof (_update_solution_cases model euler (self f) (1 # 2)) as Hs.
    cbv zeta in Hs.
    assert (Hy0 : idx0 (y (stepped model euler (self f) (1 # 2))) == 3).
    { unfold stepped, integrate, euler. simpl. rewrite H0. field.
      rewrite H1. discriminate. }
    assert (Hy1 : idx1 (y (stepped model euler (self f) (1 # 2))) == 4).
    { unfold stepped, integrate, euler. simpl. rewrite H1. ring. }
    assert (Hsucc : successful (stepped model euler (self f) (1 # 2)) = true).
    { unfold stepped, integrate, euler, successful in *. simpl.
      rewrite Hok. reflexivity. }
    destruct (_update_solution model euler (self f) (1 # 2)) as [s | e] eqn:E.
    + destruct Hs as (Hs & _).
      assert (Hcw : _converged_workers model s (tol a) = false).
      { unfold _converged_workers.
        destruct (is_positive model); rewrite if_id;
          apply Qle_bool_abs_neg; reflexivity. }
      assert (Hcf : _converged_firms model s (tol a) = false).
      { unfold _converged_firms. rewrite if_id. apply Qle_bool_abs_neg. reflexivity. }
      assert (Hef : _exhausted_firms model s (tol a) = false).
      { unfold _exhausted_firms. rewrite if_id. apply Qltb_le.
        rewrite Hs. cbn [integrator]. rewrite Hy0. simpl. discriminate. }
      destruct (IH (with_self f s)) as [f' Hf'].
      * rewrite Hs. exact Hsucc.
      * rewrite Hs. exact Hy0.
      * rewrite Hs. exact Hy1.
      * exists f'. cbn [solve_loop]. rewrite Hok.
        rewrite (loop_body_after_step model euler a (1 # 2) f s Hlow E).
        rewrite Hcw, Hcf, Hef. cbn [andb]. exact Hf'.
    + destruct Hs as (mesg & _ & [Hs | [Hs | Hs]]).
      * rewrite Hy1 in Hs. lra.
      * simpl in Hs. lra.
      * simpl in Hs. lra.
Qed.

(** C7 (as stated) fails: [solve] has no argument that caps the passes of
    its loop. With a tolerance of -1 no convergence or exhaustion test can
    hold, and on a matching value that stays at the firm upper bound the
    run is still going after any number of passes. *)
Lemma solve_runs_past_every_cap :
  ~ (exists cap : nat,
       forall fuel : nat,
         (cap <= fuel)%nat ->
         stopped (solve (toy_model "positive" 0 2) euler (toy_args 8 (-1) 3 false) fuel)).
Proof.
  intros [cap Hcap]. specialize (Hcap cap (Nat.le_refl cap)).
  unfold solve in Hcap.
  destruct (solve_init (toy_model "positive" 0 2) (toy_args 8 (-1) 3 false))
    as [f0 | e] eqn:E0; [|vm_compute in E0; discriminate E0].
  destruct (solve_step_size (toy_model "positive" 0 2) (toy_args 8 (-1) 3 false))
    as [h | e] eqn:E1; [|vm_compute in E1; discriminate E1].
  vm_compute in E0. injection E0 as <-.
  vm_compute in E1. injection E1 as <-.
  match type of Hcap with
  | stopped (solve_loop _ _ _ _ _ ?f0) =>
      destruct (still_run_goes_on cap f0) as [f' Hf'];
        [reflexivity | reflexivity | reflexivity |]
  end.
  rewrite Hf' in Hcap. exact Hcap.
Qed.

(** ** Positivity along the whole trajectory *)

Section Positivity.

Context (model : Model) (ode_run : Stepper) (a : SolveArgs) (h : Q).

Lemma restart_Next (g f' : Frame) :
  restart model g = Ok (Next f') ->
  float_eps < firm_size_upper g - firm_size_lower g
  /\ firm_size_lower f' = firm_size_lower g
  /\ guess_firm_size f' = (1 # 2) * (firm_size_lower g + firm_size_upper g)
  /\ _solution (self f') = [boundary_row model (guess_firm_size f')]
  /\ 0 < row_wage (boundary_row model (guess_firm_size f'))
  /\ 0 < row_profit (boundary_row model (guess_firm_size f')).
Proof.
  unfold restart.
  destruct (_update_initial_guess_cases (firm_size_lower g) (firm_size_upper g))
    as [[Hw ->] | [_ ->]]; [|discriminate].
  cbn [mbind res_bind].
  pose proof (_reset_solution_cases model
                ((1 # 2) * (firm_size_lower g + firm_size_upper g))) as H.
  cbv zeta in H.
  destruct (_reset_solution model ((1 # 2) * (firm_size_lower g + firm_size_upper g)))
    as [s | e]; [|discriminate].
  destruct H as (-> & Hwage & Hprofit).
  intros [= <-]. simpl. auto 8.
Qed.

Lemma restart_positive (g f' : Frame) :
  0 <= firm_size_lower g ->
  restart model g = Ok (Next f') ->
  positive_inv f'.
Proof.
  intros Hlo Hr.
  destruct (restart_Next g f' Hr) as (Hw & Hl & Hg & Hsol & Hwage & Hprofit).
  unfold positive_inv. rewrite Hl, Hsol.
  assert (Hpos : 0 < guess_firm_size f')
    by (rewrite Hg; unfold float_eps in Hw; lra).
  split; [exact Hlo|]. split; [exact Hpos|].
  constructor; [|constructor].
  split; [exact Hpos | split; assumption].
Qed.

Lemma loop_body_positive (f : Frame) :
  positive_inv f ->
  match loop_body model ode_run a h f with
  | Ok (Next f') | Ok (Break _ f') => positive_inv f'
  | Raise _ => True
  end.
Proof.
  intros (Hlo & Hg & Hrows).
  destruct (_guess_firm_size_upper_too_low (self f) (guess_firm_size_upper a) (tol a))
    eqn:Hlow.
  { unfold loop_body. rewrite Hlow. destruct (message a); repeat split; assumption. }
  pose proof (_update_solution_cases model ode_run (self f) h) as Hs.
  cbv zeta in Hs.
  destruct (_update_solution model ode_run (self f) h) as [s | e] eqn:E.
  2:{ unfold loop_body. rewrite Hlow, E. exact I. }
  destruct Hs as (Hs & H1 & Hwage & Hprofit).
  assert (Hrows' : Forall row_positive (_solution s)).
  { rewrite Hs. cbn [_solution]. apply Forall_app. split; [exact Hrows|].
    constructor; [|constructor]. repeat split; assumption. }
  rewrite (loop_body_after_step model ode_run a h f s Hlow E).
  destruct (_converged_workers model s (tol a) && _converged_firms model s (tol a)).
  { destruct (_validate_solution model (_solution s)); [|exact I].
    repeat split; assumption. }
  destruct (_exhausted_firms model s (tol a)).
  { match goal with |- context [restart model ?g] =>
      pose proof (restart_positive g) as Hr;
      destruct (restart model g) as [[f' | why f'] | e] eqn:Er
    end; [| | exact I].
    - apply Hr; [|reflexivity]. simpl. lra.
    - unfold restart in Er.
      destruct (_update_initial_guess _ _); [|discriminate].
      cbn [mbind res_bind] in Er.
      destruct (_reset_solution model _); discriminate. }
  destruct (_converged_workers model s (tol a)).
  { match goal with |- context [restart model ?g] =>
      pose proof (restart_positive g) as Hr;
      destruct (restart model g) as [[f' | why f'] | e] eqn:Er
    end; [| | exact I].
    - apply Hr; [|reflexivity].
      destruct (message a); exact Hlo.
    - unfold restart in Er.
      destruct (_update_initial_guess _ _); [|discriminate].
      cbn [mbind res_bind] in Er.
      destruct (_reset_solution model _); discriminate. }
  repeat split; assumption.
Qed.

Lemma solve_loop_positive (fuel : nat) :
  forall f : Frame,
    positive_inv f ->
    forall f', final_frame (solve_loop model ode_run a h fuel f) = Some f' ->
               positive_inv f'.
Proof.
  induction fuel as [|fuel IH]; intros f Hinv f'; cbn [solve_loop].
  - destruct (successful (integrator (self f))); intros [= <-]; exact Hinv.
  - destruct (successful (integrator (self f))); [|intros [= <-]; exact Hinv].
    pose proof (loop_body_positive f Hinv) as Hb.
    destruct (loop_body model ode_run a h f) as [[f1 | why f1] | e].
    + apply IH. exact Hb.
    + intros [= <-]. exact Hb.
    + discriminate.
Qed.

End Positivity.

(** Whenever [solve] is called with a positive upper guess, every row of
    the trajectory it ends with, the boundary row included, has a positive
    firm size, wage and profit. *)
Lemma solve_rows_positive (model : Model) (ode_run : Stepper) (a : SolveArgs)
      (fuel : nat) (f : Frame) :
  0 < guess_firm_size_upper a ->
  final_frame (solve model ode_run a fuel) = Some f ->
  Forall row_positive (_solution (self f)).
Proof.
  intros HG. unfold solve, solve_init. cbv zeta.
  pose proof (_reset_solution_cases model ((1 # 2) * (guess_firm_size_upper a + 0)))
    as Hinit.
  cbv zeta in Hinit.
  destruct (_reset_solution model ((1 # 2) * (guess_firm_size_upper a + 0)))
    as [s | e]; [|discriminate].
  destruct Hinit as (-> & Hwage & Hprofit). cbn [mbind res_bind].
  destruct (solve_step_size model a) as [h | e]; [|discriminate].
  intros Hf.
  refine (proj2 (proj2 (solve_loop_positive model ode_run a h fuel _ _ f Hf))).
  unfold positive_inv. cbn [firm_size_lower guess_firm_size self _solution].
  split; [lra|]. split; [lra|].
  constructor; [|constructor].
  unfold row_positive, boundary_row, row_firm_size.
  cbn [row_V row_wage row_profit idx1 snd].
  repeat split; [lra | assumption | assumption].
Qed.

(** ** Runs of the toy model *)

(** With guess bound 8 the first attempt (guess 4) ends with workers
    exhausted, the second (guess 2) matches everyone. *)
Example toy_solve_succeeds :
  exists f,
    solve (toy_model "positive" 4 2) euler (toy_args 8 (1 # 1000000) 3 true) 10
    = Returned BreakSuccess f
    /\ stdout f = [ExhaustedWorkersTooHigh ((1 # 2) * (8 + 0)); SuccessAllMatched]
    /\ length (_solution (self f)) = 3%nat
    /\ firm_size_upper f = (1 # 2) * (8 + 0).
Proof.
  eexists. split; [vm_compute; reflexivity|].
  repeat split.
Qed.

(** * Further properties of the solver *)

(** ** The structure of a run *)

Section Runs.

Context (model : Model) (ode_run : Stepper) (a : SolveArgs) (h : Q).

Lemma restart_Next_frame (g f' : Frame) :
  restart model g = Ok (Next f') ->
  let guess := (1 # 2) * (firm_size_lower g + firm_size_upper g) in
  float_eps < firm_size_upper g - firm_size_lower g
  /\ f' = {| self := {| integrator :=
                          set_initial_value (upper (firms model), guess) (anchor model);
                        _solution := [boundary_row model guess] |};
             firm_size_lower := firm_size_lower g;
             firm_size_upper := firm_size_upper g;
             guess_firm_size := guess;
             stdout := stdout g |}.
Proof.
  cbv zeta. unfold restart.
  destruct (_update_initial_guess_cases (firm_size_lower g) (firm_size_upper g))
    as [[Hw ->] | [_ ->]]; [|discriminate].
  cbn [mbind res_bind].
  pose proof (_reset_solution_cases model
                ((1 # 2) * (firm_size_lower g + firm_size_upper g))) as H.
  cbv zeta in H.
  destruct (_reset_solution model ((1 # 2) * (firm_size_lower g + firm_size_upper g)))
    as [s | e]; [|discriminate].
  destruct H as (-> & _ & _).
  intros [= <-]. split; [exact Hw | reflexivity].
Qed.

Lemma restart_no_Break (g : Frame) (why : Exit) (f' : Frame) :
  restart model g <> Ok (Break why f').
Proof.
  unfold restart.
  destruct (_update_initial_guess (firm_size_lower g) (firm_size_upper g));
    [|discriminate].
  cbn [mbind res_bind].
  destruct (_reset_solution model _); discriminate.
Qed.

Lemma _update_solution_Ok (s s' : Solver) :
  _update_solution model ode_run s h = Ok s' ->
  s' = {| integrator := stepped model ode_run s h;
          _solution := _solution s ++ [row_at model (stepped model ode_run s h)] |}
  /\ row_positive (row_at model (stepped model ode_run s h)).
Proof.
  intros E. pose proof (_update_solution_cases model ode_run s h) as H.
  cbv zeta in H. rewrite E in H. destruct H as (-> & H1 & Hw & Hp).
  split; [reflexivity|]. repeat split; assumption.
Qed.

(** How a pass can leave the loop. *)
Lemma loop_body_Break (f f' : Frame) (why : Exit) :
  loop_body model ode_run a h f = Ok (Break why f') ->
  (why = BreakGuessTooLow
   /\ _guess_firm_size_upper_too_low (self f) (guess_firm_size_upper a) (tol a) = true
   /\ f' = print_if (message a) FailureIncreaseGuess f)
  \/ (why = BreakSuccess
      /\ _guess_firm_size_upper_too_low (self f) (guess_firm_size_upper a) (tol a) = false
      /\ exists s,
          _update_solution model ode_run (self f) h = Ok s
          /\ _converged_workers model s (tol a) = true
          /\ _converged_firms model s (tol a) = true
          /\ _validate_solution model (_solution s) = Ok tt
          /\ f' = print SuccessAllMatched (with_self f s)).
Proof.
  destruct (_guess_firm_size_upper_too_low (self f) (guess_firm_size_upper a) (tol a))
    eqn:Hlow.
  { unfold loop_body. rewrite Hlow. intros [= <- <-]. left. auto. }
  destruct (_update_solution model ode_run (self f) h) as [s | e] eqn:E.
  2:{ unfold loop_body. rewrite Hlow, E. discriminate. }
  rewrite (loop_body_after_step model ode_run a h f s Hlow E).
  destruct (_converged_workers model s (tol a)) eqn:Hcw;
    destruct (_converged_firms model s (tol a)) eqn:Hcf; cbn [andb].
  - destruct (_validate_solution model (_solution s)) as [[] | e] eqn:Hv;
      [|discriminate].
    intros [= <- <-]. right. split; [reflexivity|]. split; [reflexivity|].
    exists s. auto 6.
  - destruct (_exhausted_firms model s (tol a)); intros H;
      exfalso; exact (restart_no_Break _ _ _ H).
  - destruct (_exhausted_firms model s (tol a)); intros H;
      [exfalso; exact (restart_no_Break _ _ _ H) | discriminate].
  - destruct (_exhausted_firms model s (tol a)); intros H;
      [exfalso; exact (restart_no_Break _ _ _ H) | discriminate].
Qed.

(** How a pass can hand over to the loop test: after a step that fired no
    test, or after a restart from a bracket that has the old guess as one
    of its bounds. *)
Lemma loop_body_Next (f f' : Frame) :
  loop_body model ode_run a h f = Ok (Next f') ->
  _guess_firm_size_upper_too_low (self f) (guess_firm_size_upper a) (tol a) = false
  /\ exists s,
      _update_solution model ode_run (self f) h = Ok s
      /\ _converged_workers model s (tol a) && _converged_firms model s (tol a) = false
      /\ ((_converged_workers model s (tol a) = false
           /\ _exhausted_firms model s (tol a) = false
           /\ f' = with_self f s)
          \/ (_exhausted_firms model s (tol a) = true
              /\ exists msg,
                  restart model
                    (with_lower (print_if (message a) msg (with_self f s))
                       (guess_firm_size f))
                  = Ok (Next f'))
          \/ (_converged_workers model s (tol a) = true
              /\ _exhausted_firms model s (tol a) = false
              /\ restart model
                   (with_upper
                      (print_if (message a) (ExhaustedWorkersTooHigh (guess_firm_size f))
                         (with_self f s))
                      (guess_firm_size f))
                 = Ok (Next f'))).
Proof.
  destruct (_guess_firm_size_upper_too_low (self f) (guess_firm_size_upper a) (tol a))
    eqn:Hlow.
  { unfold loop_body. rewrite Hlow. discriminate. }
  destruct (_update_solution model ode_run (self f) h) as [s | e] eqn:E.
  2:{ unfold loop_body. rewrite Hlow, E. discriminate. }
  rewrite (loop_body_after_step model ode_run a h f s Hlow E).
  intros H. split; [reflexivity|]. exists s. split; [reflexivity|].
  destruct (_converged_workers model s (tol a) && _converged_firms model s (tol a))
    eqn:Hterm.
  { destruct (_validate_solution model (_solution s)); discriminate. }
  split; [reflexivity|].
  destruct (_exhausted_firms model s (tol a)).
  { right. left. split; [reflexivity|]. eexists. exact H. }
  destruct (_converged_workers model s (tol a)).
  { right. right. auto. }
  left. injection H as <-. auto.
Qed.

(** Where a run of the loop ends, in terms of the frames it passed. *)
Lemma solve_loop_ends (fuel : nat) :
  forall f0 f : Frame,
    reaches model ode_run a h f0 f ->
    match solve_loop model ode_run a h fuel f with
    | Running f' =>
        reaches model ode_run a h f0 f'
        /\ successful (integrator (self f')) = true
    | Returned LoopTestFalse f' =>
        reaches model ode_run a h f0 f'
        /\ successful (integrator (self f')) = false
    | Returned why f' =>
        exists f1,
          reaches model ode_run a h f0 f1
          /\ successful (integrator (self f1)) = true
          /\ loop_body model ode_run a h f1 = Ok (Break why f')
    | Raised e =>
        exists f1,
          reaches model ode_run a h f0 f1
          /\ successful (integrator (self f1)) = true
          /\ loop_body model ode_run a h f1 = Raise e
    end.
Proof.
  induction fuel as [|fuel IH]; intros f0 f Hr; cbn [solve_loop].
  - destruct (successful (integrator (self f))) eqn:Hok; auto.
  - destruct (successful (integrator (self f))) eqn:Hok; [|auto].
    destruct (loop_body model ode_run a h f) as [[f1 | why f1] | e] eqn:Hb.
    + apply IH. exact (reaches_step _ _ _ _ _ _ _ Hr Hok Hb).
    + destruct (loop_body_Break f f1 why Hb) as [(-> & _) | (-> & _)]; eauto.
    + eauto.
Qed.

(** A property of frames kept by every pass that hands over holds at every
    frame a run passes through. *)
Lemma reaches_invariant (P : Frame -> Prop) :
  (forall f f', P f ->
                successful (integrator (self f)) = true ->
                loop_body model ode_run a h f = Ok (Next f') -> P f') ->
  forall f0 f, reaches model ode_run a h f0 f -> P f0 -> P f.
Proof.
  intros Hstep f0 f Hr. induction Hr as [f | f f1 f2 Hr IH Hok Hb]; intros H0.
  - exact H0.
  - exact (Hstep f1 f2 (IH H0) Hok Hb).
Qed.

End Runs.

(** [solve] either fails before its loop or runs the loop from the frame
    that holds the bracket [0, guess_firm_size_upper], its midpoint and the
    boundary row. *)
Lemma solve_cases (model : Model) (ode_run : Stepper) (a : SolveArgs) (fuel : nat) :
  (exists e, solve model ode_run a fuel = Raised e
             /\ (solve_init model a = Raise e
                 \/ solve_step_size model a = Raise e))
  \/ (exists h,
        solve_step_size model a = Ok h
        /\ solve model ode_run a fuel
           = solve_loop model ode_run a h fuel
               {| self := {| integrator :=
                               set_initial_value
                                 (upper (firms model), (1 # 2) * (guess_firm_size_upper a + 0))
                                 (anchor model);
                             _solution := [boundary_row model
                                             ((1 # 2) * (guess_firm_size_upper a + 0))] |};
                  firm_size_lower := 0;
                  firm_size_upper := guess_firm_size_upper a;
                  guess_firm_size := (1 # 2) * (guess_firm_size_upper a + 0);
                  stdout := [] |}).
Proof.
  unfold solve, solve_init. cbv zeta.
  pose proof (_reset_solution_cases model ((1 # 2) * (guess_firm_size_upper a + 0)))
    as Hinit.
  cbv zeta in Hinit.
  destruct (_reset_solution model ((1 # 2) * (guess_firm_size_upper a + 0)))
    as [s | e]; cbn [mbind res_bind].
  - destruct Hinit as (-> & _).
    destruct (solve_step_size model a) as [h | e].
    + right. exists h. auto.
    + left. exists e. auto.
  - left. exists e. auto.
Qed.

(** A property of frames kept by every pass, whether it hands over or
    breaks, holds at the frame a run of [solve] ends in. *)
Lemma solve_final_invariant (model : Model) (ode_run : Stepper) (a : SolveArgs)
      (P : Frame -> Prop) :
  (forall h f f', P f ->
                  successful (integrator (self f)) = true ->
                  loop_body model ode_run a h f = Ok (Next f') -> P f') ->
  (forall h f f' why, P f ->
                      successful (integrator (self f)) = true ->
                      loop_body model ode_run a h f = Ok (Break why f') -> P f') ->
  P {| self := {| integrator :=
                    set_initial_value
                      (upper (firms model), (1 # 2) * (guess_firm_size_upper a + 0))
                      (anchor model);
                  _solution := [boundary_row model
                                  ((1 # 2) * (guess_firm_size_upper a + 0))] |};
       firm_size_lower := 0;
       firm_size_upper := guess_firm_size_upper a;
       guess_firm_size := (1 # 2) * (guess_firm_size_upper a + 0);
       stdout := [] |} ->
  forall fuel f, final_frame (solve model ode_run a fuel) = Some f -> P f.
Proof.
  intros Hnext Hbreak Hinit fuel f.
  destruct (solve_cases model ode_run a fuel) as [(e & -> & _) | (h & _ & ->)];
    [discriminate|].
  match goal with |- final_frame (solve_loop _ _ _ _ _ ?f0) = _ -> _ =>
    pose proof (solve_loop_ends model ode_run a h fuel f0 f0 (reaches_refl _ _ _ _ _)) as He;
    pose proof (reaches_invariant model ode_run a h P (Hnext h) f0) as Hinv;
    destruct (solve_loop model ode_run a h fuel f0) as [e | why f' | f']
  end.
  - discriminate.
  - intros [= <-]. destruct why.
    + destruct He as [Hr _]. exact (Hinv _ Hr Hinit).
    + destruct He as (f1 & Hr & Hok & Hb). exact (Hbreak h f1 f' _ (Hinv _ Hr Hinit) Hok Hb).
    + destruct He as (f1 & Hr & Hok & Hb). exact (Hbreak h f1 f' _ (Hinv _ Hr Hinit) Hok Hb).
  - intros [= <-]. destruct He as [Hr _]. exact (Hinv _ Hr Hinit).
Qed.

(** ** What a successful run guarantees *)

(** X1. When [solve] ends with success, the integrator stands within [tol]
    of the terminal worker bound, the matching value is within [tol] of the
    firm lower bound, the stored trajectory has passed the validator, it
    starts with the boundary row of the final guess and ends with the row of
    the point reached, and the last thing printed is the success message. *)
Theorem success_meets_both_boundaries :
  forall (model : Model) (ode_run : Stepper) (a : SolveArgs) (fuel : nat) (f : Frame),
    solve model ode_run a fuel = Returned BreakSuccess f ->
    Qabs (t (integrator (self f)) - terminal model) <= tol a
    /\ Qabs (idx0 (y (integrator (self f))) - lower (firms model)) <= tol a
    /\ _validate_solution model (_solution (self f)) = Ok tt
    /\ (exists rows,
          _solution (self f)
          = boundary_row model (guess_firm_size f)
              :: rows ++ [row_at model (integrator (self f))])
    /\ last (stdout f) = Some SuccessAllMatched.
Proof.
  intros model ode_run a fuel f Hsolve.
  destruct (solve_cases model ode_run a fuel) as [(e & He & _) | (h & _ & Hloop)];
    [congruence|].
  rewrite Hloop in Hsolve.
  match type of Hsolve with solve_loop _ _ _ _ _ ?f0 = _ =>
    pose proof (solve_loop_ends model ode_run a h fuel f0 f0 (reaches_refl _ _ _ _ _)) as He;
    set (init := f0) in *
  end.
  rewrite Hsolve in He. destruct He as (f1 & Hr & Hok & Hb).
  (* the trajectory of every frame passed starts with its boundary row *)
  assert (Hhead : exists rows,
             _solution (self f1) = boundary_row model (guess_firm_size f1) :: rows).
  { refine (reaches_invariant model ode_run a h
              (fun g => exists rows,
                   _solution (self g) = boundary_row model (guess_firm_size g) :: rows)
              _ init f1 Hr _).
    - intros g g' [rows Hrows] _ Hn.
      destruct (loop_body_Next model ode_run a h g g' Hn)
        as (_ & s & Hs & _ & [(_ & _ & ->) | [(_ & msg & Hre) | (_ & _ & Hre)]]).
      + destruct (_update_solution_Ok model ode_run h _ _ Hs) as [-> _].
        cbn. rewrite Hrows. eexists. reflexivity.
      + destruct (restart_Next_frame model _ _ Hre) as [_ ->]. cbn. exists []. reflexivity.
      + destruct (restart_Next_frame model _ _ Hre) as [_ ->]. cbn. exists []. reflexivity.
    - exists []. reflexivity. }
  destruct (loop_body_Break model ode_run a h f1 f BreakSuccess Hb)
    as [(Hwhy & _) | (_ & _ & s & Hs & Hcw & Hcf & Hv & ->)]; [discriminate|].
  destruct Hhead as [rows Hrows].
  destruct (_update_solution_Ok model ode_run h _ _ Hs) as [Hs' _].
  cbn [print with_self self stdout guess_firm_size].
  split; [exact (proj1 (_converged_workers_iff model s (tol a)) Hcw)|].
  split; [exact (proj1 (_converged_firms_iff model s (tol a)) Hcf)|].
  split; [exact Hv|].
  split.
  - exists rows. rewrite Hs'. cbn [_solution integrator]. rewrite Hrows. reflexivity.
  - apply last_snoc.
Qed.

(** Witness for X1: the toy run that succeeds on its second attempt. *)
Lemma success_meets_both_boundaries_witness :
  exists f,
    solve (toy_model "positive" 4 2) euler (toy_args 8 (1 # 1000000) 3 true) 10
    = Returned BreakSuccess f
    /\ _validate_solution (toy_model "positive" 4 2) (_solution (self f)) = Ok tt
    /\ last (stdout f) = Some SuccessAllMatched.
Proof.
  eexists. split; [vm_compute; reflexivity|].
  match goal with |- _validate_solution _ (_solution (self ?f)) = _ /\ _ =>
    destruct (success_meets_both_boundaries (toy_model "positive" 4 2) euler
                (toy_args 8 (1 # 1000000) 3 true) 10 f)
      as (_ & _ & Hv & _ & Hl)
  end.
  - vm_compute. reflexivity.
  - split; [exact Hv | exact Hl].
Defined.

(** ** What a run prints *)

(** X2. Without [message] a run prints nothing on the way: when it ends
    with success exactly the success message has been printed, and when it
    ends in any other way (guess too low, integrator failure) or is still
    going, nothing has been printed at all. *)
Theorem quiet_run_prints_only_success :
  forall (model : Model) (ode_run : Stepper) (a : SolveArgs) (fuel : nat),
    message a = false ->
    match solve model ode_run a fuel with
    | Returned BreakSuccess f => stdout f = [SuccessAllMatched]
    | Returned _ f => stdout f = []
    | Running f => stdout f = []
    | Raised _ => True
    end.
Proof.
  intros model ode_run a fuel Hmsg.
  destruct (solve_cases model ode_run a fuel) as [(e & -> & _) | (h & _ & ->)];
    [exact I|].
  match goal with |- context [solve_loop _ _ _ _ _ ?f0] =>
    pose proof (solve_loop_ends model ode_run a h fuel f0 f0 (reaches_refl _ _ _ _ _)) as He;
    assert (Hinv : forall g, reaches model ode_run a h f0 g -> stdout g = [])
  end.
  { intros g Hr.
    refine (reaches_invariant model ode_run a h (fun g => stdout g = []) _ _ g Hr eq_refl).
    intros g1 g2 Hout _ Hn.
    destruct (loop_body_Next model ode_run a h g1 g2 Hn)
      as (_ & s & _ & _ & [(_ & _ & ->) | [(_ & msg & Hre) | (_ & _ & Hre)]]).
    - exact Hout.
    - destruct (restart_Next_frame model _ _ Hre) as [_ ->].
      rewrite Hmsg. exact Hout.
    - destruct (restart_Next_frame model _ _ Hre) as [_ ->].
      rewrite Hmsg. exact Hout. }
  destruct (solve_loop model ode_run a h fuel _) as [e | why f | f].
  - exact I.
  - destruct why.
    + destruct He as [Hr _]. exact (Hinv f Hr).
    + destruct He as (f1 & Hr & _ & Hb).
      destruct (loop_body_Break model ode_run a h f1 f _ Hb)
        as [(_ & _ & ->) | (Hwhy & _)]; [|discriminate].
      rewrite Hmsg. exact (Hinv f1 Hr).
    + destruct He as (f1 & Hr & _ & Hb).
      destruct (loop_body_Break model ode_run a h f1 f _ Hb)
        as [(Hwhy & _) | (_ & _ & s & _ & _ & _ & _ & ->)]; [discriminate|].
      cbn. rewrite (Hinv f1 Hr). reflexivity.
  - destruct He as [Hr _]. exact (Hinv f Hr).
Qed.

(** Witness for X2: the quiet toy run prints the success message only. *)
Lemma quiet_run_prints_only_success_witness :
  match solve (toy_model "positive" 4 2) euler (toy_args 8 (1 # 1000000) 3 false) 10 with
  | Returned BreakSuccess f => stdout f = [SuccessAllMatched]
  | _ => False
  end.
Proof.
  pose proof (quiet_run_prints_only_success (toy_model "positive" 4 2) euler
                (toy_args 8 (1 # 1000000) 3 false) 10 eq_refl) as H.
  destruct (solve (toy_model "positive" 4 2) euler (toy_args 8 (1 # 1000000) 3 false) 10)
    as [e | [] f | f] eqn:E;
    try (vm_compute in E; discriminate E).
  exact H.
Defined.

(** ** A negative tolerance *)

(** X3. With a negative tolerance none of the tests on a distance can hold,
    so [solve] never ends with success and never with the guess-too-low
    break: if it returns at all, it is because the integrator reported
    failure. *)
Theorem negative_tolerance_never_succeeds :
  forall (model : Model) (ode_run : Stepper) (a : SolveArgs) (fuel : nat)
         (why : Exit) (f : Frame),
    tol a < 0 ->
    solve model ode_run a fuel = Returned why f ->
    why = LoopTestFalse.
Proof.
  intros model ode_run a fuel why f Htol Hsolve.
  destruct (solve_cases model ode_run a fuel) as [(e & He & _) | (h & _ & Hloop)];
    [congruence|].
  rewrite Hloop in Hsolve.
  match type of Hsolve with solve_loop _ _ _ _ _ ?f0 = _ =>
    pose proof (solve_loop_ends model ode_run a h fuel f0 f0 (reaches_refl _ _ _ _ _)) as He
  end.
  rewrite Hsolve in He.
  destruct why; [reflexivity | exfalso | exfalso];
    destruct He as (f1 & _ & _ & Hb);
    destruct (loop_body_Break model ode_run a h f1 f _ Hb)
      as [(_ & Hlow & _) | (_ & _ & s & _ & Hcw & _)].
  - unfold _guess_firm_size_upper_too_low in Hlow.
    rewrite (Qle_bool_abs_neg _ _ Htol) in Hlow. discriminate.
  - apply _converged_workers_iff in Hcw. pose proof (Qabs_nonneg
      (t (integrator s) - (if is_positive model then lower (workers model)
                           else upper (workers model)))). lra.
  - unfold _guess_firm_size_upper_too_low in Hlow.
    rewrite (Qle_bool_abs_neg _ _ Htol) in Hlow. discriminate.
  - apply _converged_workers_iff in Hcw. pose proof (Qabs_nonneg
      (t (integrator s) - (if is_positive model then lower (workers model)
                           else upper (workers model)))). lra.
Qed.

(** Witness for X3: a stepper that fails at once; with tolerance -1 the toy
    run returns through the loop test. *)
Lemma negative_tolerance_never_succeeds_witness :
  exists f,
    solve (toy_model "positive" 4 2) failing (toy_args 8 (-1) 3 false) 5
    = Returned LoopTestFalse f.
Proof.
  destruct (solve (toy_model "positive" 4 2) failing (toy_args 8 (-1) 3 false) 5)
    as [e | why f | f] eqn:E;
    try (vm_compute in E; discriminate E).
  exists f.
  rewrite (negative_tolerance_never_succeeds (toy_model "positive" 4 2) failing
             (toy_args 8 (-1) 3 false) 5 why f eq_refl E).
  reflexivity.
Defined.

(** ** A step on which the integrator fails *)

(** X5. The loop tests the success flag only at its head. So when the
    integrator fails on a step and no test fires on the point it stopped at,
    the row of that point is still recorded and [solve] returns at the next
    loop test, without printing and without raising. When instead a bracket
    update fires on that point, the restart clears the failure and the loop
    goes on from the new boundary row. *)
Theorem failed_step_is_recorded_then_ends_run :
  forall (model : Model) (ode_run : Stepper) (a : SolveArgs) (h : Q) (fuel : nat)
         (f : Frame) (s : Solver),
    successful (integrator (self f)) = true ->
    _guess_firm_size_upper_too_low (self f) (guess_firm_size_upper a) (tol a) = false ->
    _update_solution model ode_run (self f) h = Ok s ->
    successful (integrator s) = false ->
    (_converged_workers model s (tol a) = false ->
     _exhausted_firms model s (tol a) = false ->
     solve_loop model ode_run a h (S fuel) f
     = Returned LoopTestFalse
         {| self := s;
            firm_size_lower := firm_size_lower f;
            firm_size_upper := firm_size_upper f;
            guess_firm_size := guess_firm_size f;
            stdout := stdout f |}
     /\ _solution s = _solution (self f) ++ [row_at model (integrator s)])
    /\ (forall f',
          _converged_workers model s (tol a) && _converged_firms model s (tol a) = false ->
          _exhausted_firms model s (tol a) || _converged_workers model s (tol a) = true ->
          loop_body model ode_run a h f = Ok (Next f') ->
          successful (integrator (self f')) = true
          /\ _solution (self f') = [boundary_row model (guess_firm_size f')]).
Proof.
  intros model ode_run a h fuel f s Hok Hlow Hs Hfail. split.
  - intros Hcw Hef. split.
    + cbn [solve_loop]. rewrite Hok.
      rewrite (loop_body_after_step model ode_run a h f s Hlow Hs), Hcw, Hef.
      cbn [andb]. destruct fuel; cbn [solve_loop with_self self]; rewrite Hfail;
        reflexivity.
    + destruct (_update_solution_Ok model ode_run h _ _ Hs) as [-> _]. reflexivity.
  - intros f' Hterm Hupd Hn.
    destruct (loop_body_Next model ode_run a h f f' Hn)
      as (_ & s' & Hs' & _ & Hcases).
    rewrite Hs in Hs'. injection Hs' as <-.
    destruct Hcases as [(Hcw & Hef & _) | [(_ & msg & Hre) | (_ & _ & Hre)]].
    + rewrite Hcw, Hef in Hupd. discriminate.
    + destruct (restart_Next_frame model _ _ Hre) as [_ ->]. split; reflexivity.
    + destruct (restart_Next_frame model _ _ Hre) as [_ ->]. split; reflexivity.
Qed.

(** Witness for X5: the stepper that fails at once, on the toy model. *)
Lemma failed_step_is_recorded_then_ends_run_witness :
  solve_loop (toy_model "positive" 4 2) failing (toy_args 8 (1 # 1000000) 3 false)
    (1 # 2) 1 (toy_frame (toy_solver 2 3 4) 0 8 4)
  = Returned LoopTestFalse
      (toy_frame {| integrator := {| t := 2; y := (3, 4); success := false |};
                    _solution := [toy_row 2 3 4] |} 0 8 4).
Proof.
  refine (proj1 (proj1 (failed_step_is_recorded_then_ends_run
                          (toy_model "positive" 4 2) failing
                          (toy_args 8 (1 # 1000000) 3 false) (1 # 2) 0
                          (toy_frame (toy_solver 2 3 4) 0 8 4)
                          {| integrator := {| t := 2; y := (3, 4); success := false |};
                             _solution := [toy_row 2 3 4] |} _ _ _ _) _ _));
    reflexivity.
Defined.

(** ** The guard on the step size *)

(** X6. For a number of knots other than one, [solve] gets past its guard
    on the step size exactly when [number_knots - 1] and the width of the
    worker range have the same sign: with at least two knots and worker
    bounds in order, or with fewer than one knot and the worker bounds
    reversed. In every other case the assertion on the step size fails. *)
Theorem step_size_guard :
  forall (model : Model) (a : SolveArgs),
    number_knots a <> 1%Z ->
    ((1 < number_knots a)%Z /\ lower (workers model) < upper (workers model)
     \/ (number_knots a < 1)%Z /\ upper (workers model) < lower (workers model))
    /\ solve_step_size model a
       = Ok ((upper (workers model) - lower (workers model))
             / inject_Z (number_knots a - 1))
    \/ ~ ((1 < number_knots a)%Z /\ lower (workers model) < upper (workers model)
          \/ (number_knots a < 1)%Z /\ upper (workers model) < lower (workers model))
       /\ solve_step_size model a = Raise (AssertionError "").
Proof.
  intros model a Hk. unfold solve_step_size. cbv zeta.
  destruct (Z.eqb_spec (number_knots a - 1) 0) as [Hz | Hz]; [lia|].
  set (w := upper (workers model) - lower (workers model)).
  set (c := inject_Z (number_knots a - 1)).
  assert (Hc : ~ c == 0).
  { unfold c. intros H0. apply Hz. unfold Qeq in H0. simpl in H0. lia. }
  assert (Hw : w == (w / c) * c) by (field; exact Hc).
  assert (Hsign : (1 < number_knots a)%Z /\ 0 < c \/ (number_knots a < 1)%Z /\ c < 0).
  { destruct (Z_lt_ge_dec 1 (number_knots a)) as [H1 | H1].
    - left. split; [exact H1|]. unfold c. rewrite <- (Zlt_Qlt 0). lia.
    - right. split; [lia|]. unfold c. rewrite <- (Zlt_Qlt _ 0). lia. }
  assert (Hup : lower (workers model) < upper (workers model) <-> 0 < w)
    by (unfold w; split; intros; lra).
  assert (Hdown : upper (workers model) < lower (workers model) <-> w < 0)
    by (unfold w; split; intros; lra).
  rewrite Hup, Hdown.
  destruct (Qgtb (w / c) 0) eqn:E; cbn.
  - left. split; [|reflexivity]. apply Qgtb_lt in E.
    set (q := w / c) in *. clearbody q c w.
    destruct Hsign as [[H1 Hpos] | [H1 Hneg]].
    + left. split; [exact H1|]. nra.
    + right. split; [exact H1|]. nra.
  - right. split; [|reflexivity]. apply Qgtb_le in E.
    set (q := w / c) in *. clearbody q c w.
    destruct Hsign as [[H1 Hpos] | [H1 Hneg]].
    + intros [[_ H] | [H _]]; [|lia]. nra.
    + intros [[H _] | [_ H]]; [lia|]. nra.
Qed.

(** Witness for X6: three knots on the toy worker range [1, 2] give the
    step 1/2, no knots at all fail the assertion. *)
Lemma step_size_guard_witness :
  solve_step_size (toy_model "positive" 4 2) (toy_args 8 (1 # 1000000) 3 false)
  = Ok ((2 - 1) / inject_Z (3 - 1))
  /\ solve_step_size (toy_model "positive" 4 2) (toy_args 8 (1 # 1000000) 0 false)
     = Raise (AssertionError "").
Proof.
  split.
  - destruct (step_size_guard (toy_model "positive" 4 2)
                (toy_args 8 (1 # 1000000) 3 false)) as [[_ H] | [_ H]].
    + simpl. lia.
    + exact H.
    + vm_compute in H. discriminate H.
  - destruct (step_size_guard (toy_model "positive" 4 2)
                (toy_args 8 (1 # 1000000) 0 false)) as [[_ H] | [_ H]].
    + simpl. lia.
    + vm_compute in H. discriminate H.
    + exact H.
Defined.

(** ** The validator, row by row *)

(** X7. What [_validate_solution] does in each case of the assortativity
    designator. For "positive" it raises the validation error exactly when
    some row of the trajectory misses the PAM condition (the products differ
    by more than 1e-8 and LHS is below RHS). For "negative" it raises exactly
    when every row meets the condition. For any other designator it never
    raises. *)
Theorem validator_by_designator :
  forall (model : Model) (solution : list Row),
    let error :=
      ValueError "Approximated solution failed to satisfy required assortativity condition." in
    (assortativity model = "positive"%string ->
     (_validate_solution model solution = Raise error
      <-> exists r, In r solution /\ ~ pam_condition model r)
     /\ (_validate_solution model solution = Ok tt
         <-> forall r, In r solution -> pam_condition model r))
    /\ (assortativity model = "negative"%string ->
        (_validate_solution model solution = Raise error
         <-> forall r, In r solution -> pam_condition model r)
        /\ (_validate_solution model solution = Ok tt
            <-> exists r, In r solution /\ ~ pam_condition model r))
    /\ (assortativity model <> "positive"%string ->
        assortativity model <> "negative"%string ->
        _validate_solution model solution = Ok tt).
Proof.
  intros model solution. cbv zeta.
  assert (Hall : forallb id (map (_check_pam model) solution) = true
                 <-> forall r, In r solution -> pam_condition model r).
  { rewrite all_check_iff. apply List.Forall_forall. }
  assert (Hsome : forallb id (map (_check_pam model) solution) = false
                  <-> exists r, In r solution /\ ~ pam_condition model r).
  { rewrite <- not_true_iff_false, all_check_iff. split.
    - intros Hn. apply List.Exists_exists. apply List.neg_Forall_Exists_neg; [|exact Hn].
      intros r. destruct (_check_pam model r) eqn:E.
      + left. apply _check_pam_iff. exact E.
      + right. rewrite <- _check_pam_iff. congruence.
    - intros (r & Hin & Hr) Hf. apply Hr. exact (proj1 (List.Forall_forall _ _) Hf r Hin). }
  unfold _validate_solution, is_positive, is_negative. cbv zeta.
  split; [|split].
  - intros ->. rewrite <- Hall, <- Hsome.
    destruct (forallb id (map (_check_pam model) solution)); cbn;
      repeat split; congruence.
  - intros ->. rewrite <- Hall, <- Hsome.
    destruct (forallb id (map (_check_pam model) solution)); cbn;
      repeat split; congruence.
  - intros Hp Hn.
    apply String.eqb_neq in Hp, Hn. rewrite Hp, Hn. reflexivity.
Qed.

(** Witness for X7: under "positive" the two rows used above, of which the
    second misses the condition, are rejected. *)
Lemma validator_by_designator_witness :
  _validate_solution (mixed_model "positive") [toy_row 2 3 1; toy_row (1 # 2) 1 1]
  = Raise (ValueError
             "Approximated solution failed to satisfy required assortativity condition.").
Proof.
  apply (proj1 (validator_by_designator (mixed_model "positive")
                  [toy_row 2 3 1; toy_row (1 # 2) 1 1]) eq_refl).
  exists (toy_row (1 # 2) 1 1). split.
  - right. left. reflexivity.
  - intros H. apply _check_pam_iff in H. vm_compute in H. discriminate H.
Defined.

(** ** The three states of the firms *)

(** X8. For a tolerance that is not negative the two firm tests split the
    states three ways: the matching value is within [tol] of the firm lower
    bound (converged), below it by more than [tol] (exhausted), or above it
    by more than [tol] (neither test holds); never two at once. For any
    tolerance, converged and exhausted exclude each other. *)
Theorem firm_tests_trichotomy :
  forall (model : Model) (s : Solver) (tol : Q),
    (_converged_firms model s tol = true -> _exhausted_firms model s tol = false)
    /\ (0 <= tol ->
        (_converged_firms model s tol = true
         /\ _exhausted_firms model s tol = false
         /\ ~ lower (firms model) + tol < idx0 (y (integrator s)))
        \/ (_converged_firms model s tol = false
            /\ _exhausted_firms model s tol = true
            /\ ~ lower (firms model) + tol < idx0 (y (integrator s)))
        \/ (_converged_firms model s tol = false
            /\ _exhausted_firms model s tol = false
            /\ lower (firms model) + tol < idx0 (y (integrator s)))).
Proof.
  intros model s tol. split; [apply converged_not_exhausted|].
  intros Htol.
  pose proof (_converged_firms_iff model s tol) as Hc.
  pose proof (_exhausted_firms_iff model s tol) as He.
  set (d := idx0 (y (integrator s)) - lower (firms model)) in *.
  assert (Hd : lower (firms model) + tol < idx0 (y (integrator s)) <-> tol < d)
    by (unfold d; split; intros; lra).
  rewrite Hd. clearbody d.
  destruct (_converged_firms model s tol) eqn:Ec;
    destruct (_exhausted_firms model s tol) eqn:Ee.
  - exfalso. pose proof (proj1 Hc eq_refl) as H1. pose proof (proj1 He eq_refl) as H2.
    revert H1. apply Qabs_case; intros; lra.
  - left. repeat split. pose proof (proj1 Hc eq_refl) as H1.
    revert H1. apply Qabs_case; intros; lra.
  - right. left. repeat split. pose proof (proj1 He eq_refl) as H2. lra.
  - right. right. repeat split.
    destruct (Qlt_le_dec tol d) as [Hgt | Hle]; [exact Hgt|].
    exfalso.
    destruct (Qlt_le_dec d (- tol)) as [Hlt | Hge].
    + apply He in Hlt. discriminate.
    + assert (Habs : Qabs d <= tol) by (apply Qabs_case; intros; lra).
      apply Hc in Habs. discriminate.
Qed.

(** Witness for X8: a matching value of 2 against the firm lower bound 1 is
    neither converged nor exhausted. *)
Lemma firm_tests_trichotomy_witness :
  _converged_firms (toy_model "positive" 4 2) (toy_solver 2 2 4) (1 # 1000000) = false
  /\ _exhausted_firms (toy_model "positive" 4 2) (toy_solver 2 2 4) (1 # 1000000) = false.
Proof.
  destruct (proj2 (firm_tests_trichotomy (toy_model "positive" 4 2) (toy_solver 2 2 4)
                     (1 # 1000000)))
    as [(H & _) | [(_ & H & _) | (H1 & H2 & _)]].
  - simpl. lra.
  - vm_compute in H. discriminate H.
  - vm_compute in H. discriminate H.
  - split; assumption.
Defined.

(** ** The order of the public table *)






(** ** Positivity of the whole trajectory *)

(** X11. The firm size of the boundary row is the guess itself and is
    never checked. So, for the trajectory with which a run ends (short of an
    error): when [guess_firm_size_upper] is positive every row, the boundary
    row included, has a positive firm size, wage and profit; when it is not
    positive, no bracket update ever goes through and the boundary row keeps
    a firm size that is not positive. *)
Theorem trajectory_positive_iff_positive_guess :
  forall (model : Model) (ode_run : Stepper) (a : SolveArgs) (fuel : nat) (f : Frame),
    final_frame (solve model ode_run a fuel) = Some f ->
    (0 < guess_firm_size_upper a -> Forall row_positive (_solution (self f)))
    /\ (guess_firm_size_upper a <= 0 ->
        firm_size_lower f = 0
        /\ firm_size_upper f = guess_firm_size_upper a
        /\ exists r rows, _solution (self f) = r :: rows /\ row_firm_size r <= 0).
Proof.
  intros model ode_run a fuel f Hf. split.
  - intros HG. exact (solve_rows_positive model ode_run a fuel f HG Hf).
  - intros HG.
    assert (H : firm_size_lower f = 0
                /\ firm_size_upper f = guess_firm_size_upper a
                /\ guess_firm_size f = (1 # 2) * (guess_firm_size_upper a + 0)
                /\ exists rows,
                    _solution (self f)
                    = boundary_row model ((1 # 2) * (guess_firm_size_upper a + 0)) :: rows).
    { revert fuel f Hf.
      apply (solve_final_invariant model ode_run a
               (fun f => firm_size_lower f = 0
                         /\ firm_size_upper f = guess_firm_size_upper a
                         /\ guess_firm_size f = (1 # 2) * (guess_firm_size_upper a + 0)
                         /\ exists rows,
                             _solution (self f)
                             = boundary_row model
                                 ((1 # 2) * (guess_firm_size_upper a + 0)) :: rows)).
      - intros h g g' (Hl & Hu & Hg & rows & Hrows) _ Hn.
        destruct (loop_body_Next model ode_run a h g g' Hn)
          as (_ & s & Hs & _ & [(_ & _ & ->) | [(_ & msg & Hre) | (_ & _ & Hre)]]).
        + destruct (_update_solution_Ok model ode_run h _ _ Hs) as [-> _].
          cbn. rewrite Hrows. eauto 6.
        + exfalso. destruct (restart_Next_frame model _ _ Hre) as [Hw _].
          assert (Hu' : firm_size_upper
                          (with_lower (print_if (message a) msg (with_self g s))
                             (guess_firm_size g)) = firm_size_upper g)
            by (destruct (message a); reflexivity).
          rewrite Hu' in Hw. cbn [with_lower firm_size_lower] in Hw.
          rewrite Hu, Hg in Hw. unfold float_eps in Hw. lra.
        + exfalso. destruct (restart_Next_frame model _ _ Hre) as [Hw _].
          assert (Hl' : firm_size_lower
                          (with_upper
                             (print_if (message a)
                                (ExhaustedWorkersTooHigh (guess_firm_size g))
                                (with_self g s))
                             (guess_firm_size g)) = firm_size_lower g)
            by (destruct (message a); reflexivity).
          rewrite Hl' in Hw. cbn [with_upper firm_size_upper] in Hw.
          rewrite Hl, Hg in Hw. unfold float_eps in Hw. lra.
      - intros h g g' why (Hl & Hu & Hg & rows & Hrows) _ Hb.
        destruct (loop_body_Break model ode_run a h g g' why Hb)
          as [(_ & _ & ->) | (_ & _ & s & Hs & _ & _ & _ & ->)].
        + destruct (message a); cbn; eauto 6.
        + destruct (_update_solution_Ok model ode_run h _ _ Hs) as [-> _].
          cbn. rewrite Hrows. eauto 6.
      - cbn. eauto 6. }
    destruct H as (Hl & Hu & _ & rows & Hrows).
    split; [exact Hl|]. split; [exact Hu|].
    exists (boundary_row model ((1 # 2) * (guess_firm_size_upper a + 0))), rows.
    split; [exact Hrows|].
    unfold row_firm_size, boundary_row. cbn [row_V idx1 snd]. lra.
Qed.

(** Witness for X11: the toy run ends with three positive rows. *)
Lemma trajectory_positive_iff_positive_guess_witness :
  exists f,
    final_frame (solve (toy_model "positive" 4 2) euler (toy_args 8 (1 # 1000000) 3 true) 10)
    = Some f
    /\ Forall row_positive (_solution (self f)).
Proof.
  destruct (final_frame
              (solve (toy_model "positive" 4 2) euler (toy_args 8 (1 # 1000000) 3 true) 10))
    as [f|] eqn:E; [|vm_compute in E; discriminate E].
  exists f. split; [reflexivity|].
  apply (proj1 (trajectory_positive_iff_positive_guess (toy_model "positive" 4 2) euler
                  (toy_args 8 (1 # 1000000) 3 true) 10 f E)).
  reflexivity.
Defined.

(** ** Where the errors of the residual come from *)

Lemma evaluate_residual_Ok (model : Model) (tck : Type)
      (splprep : list Q * list Q -> list Q -> Z -> Q -> res tck)
      (splev : list Q -> tck -> Z -> Z -> res (list Q * list Q))
      (s : Solver) (x : list Q) (k ext : Z) (c : tck) (soln deriv : list Q * list Q) :
  splev_shape splev ->
  splprep (map (column Lfirm_productivity) (solution_rows model s),
           map (column Lfirm_size) (solution_rows model s))
          (map (column Lx) (solution_rows model s)) k 0 = Ok c ->
  splev x c 0%Z ext = Ok soln ->
  splev x c 1%Z ext = Ok deriv ->
  exists residual, evaluate_residual model splprep splev s x k ext = Ok residual.
Proof.
  intros Hshape Hc Hsoln Hderiv.
  destruct (Hshape _ _ _ _ _ Hsoln) as [Hs1 Hs2].
  destruct (Hshape _ _ _ _ _ Hderiv) as [Hd1 Hd2].
  unfold evaluate_residual.
  rewrite (interpolate_Ok model splprep splev s x k 0 ext c soln Hc Hsoln).
  rewrite (interpolate_Ok model splprep splev s x k 1 ext c deriv Hc Hderiv).
  simpl.
  match goal with |- context [vstack_for ?g0 _] => set (g := g0) end.
  destruct (vstack_for_Ok g (seq 0 (length x))) as (rhs & Hrhs & Hlen & _).
  { intros i Hi. apply elem_of_seq in Hi.
    destruct (lookup_lt_is_Some_2 x i) as [xi Hxi]; [lia|].
    destruct (lookup_lt_is_Some_2 (zip (fst soln) (snd soln)) i) as [si Hsi];
      [rewrite length_zip_with; lia|].
    exists (evaluate_rhs model xi si).
    unfold g, getitem. rewrite Hxi. simpl. rewrite Hsi. reflexivity. }
  rewrite length_seq in Hlen.
  rewrite Hrhs. unfold mbind, res_bind, array_sub.
  assert (Hzl : length (zip (fst deriv) (snd deriv)) = length x)
    by (rewrite length_zip_with; lia).
  rewrite Hzl, Hlen, Nat.eqb_refl. eexists. reflexivity.
Qed.

(** X12. On a trajectory that is a stacked array (the boundary row and at
    least one step) and for at least one query point, with spline routines
    that return one value per query point, an error of [evaluate_residual]
    is always an error of the spline routines: the fit, the evaluation of
    the spline or the evaluation of its derivative, in this order. Indexing
    the query points and the interpolated values never fails and the two
    arrays that are subtracted always have the same shape. *)
Theorem residual_errors_come_from_the_spline :
  forall (model : Model) (tck : Type)
         (splprep : list Q * list Q -> list Q -> Z -> Q -> res tck)
         (splev : list Q -> tck -> Z -> Z -> res (list Q * list Q))
         (s : Solver) (x : list Q) (k ext : Z) (e : exn),
    (2 <= length (_solution s))%nat ->
    x <> [] ->
    splev_shape splev ->
    evaluate_residual model splprep splev s x k ext = Raise e ->
    let fit :=
      splprep (map (column Lfirm_productivity) (solution_rows model s),
               map (column Lfirm_size) (solution_rows model s))
              (map (column Lx) (solution_rows model s)) k 0 in
    fit = Raise e
    \/ exists c,
        fit = Ok c
        /\ (splev x c 0%Z ext = Raise e
            \/ (exists soln, splev x c 0%Z ext = Ok soln)
               /\ splev x c 1%Z ext = Raise e).
Proof.
  intros model tck splprep splev s x k ext e _ _ Hshape Hres. cbv zeta.
  destruct (splprep (map (column Lfirm_productivity) (solution_rows model s),
                     map (column Lfirm_size) (solution_rows model s))
                    (map (column Lx) (solution_rows model s)) k 0) as [c | e0] eqn:Hc.
  - right. exists c. split; [reflexivity|].
    destruct (splev x c 0%Z ext) as [soln | e1] eqn:Hsoln.
    + destruct (splev x c 1%Z ext) as [deriv | e2] eqn:Hderiv.
      * destruct (evaluate_residual_Ok model tck splprep splev s x k ext c soln deriv
                    Hshape Hc Hsoln Hderiv) as [residual Hok].
        congruence.
      * right. split; [eauto|].
        unfold evaluate_residual in Hres.
        rewrite (interpolate_Ok model splprep splev s x k 0 ext c soln Hc Hsoln) in Hres.
        unfold interpolate in Hres. cbv zeta in Hres. rewrite Hc in Hres.
        cbn [mbind res_bind] in Hres. rewrite Hderiv in Hres. cbn in Hres. congruence.
    + left. unfold evaluate_residual, interpolate in Hres. cbv zeta in Hres.
      rewrite Hc in Hres. cbn [mbind res_bind] in Hres. rewrite Hsoln in Hres.
      cbn in Hres. congruence.
  - left. unfold evaluate_residual, interpolate in Hres. cbv zeta in Hres.
    rewrite Hc in Hres. cbn in Hres. congruence.
Qed.

(** ** The cache of compiled functions *)

Section CacheFacts.

Import Compiler.

Context {Expr Fn Ode Val : Type} (lib : Library Expr Fn Ode Val).

Lemma coherent_cleared (self : ShootingSolver Expr Fn Ode) :
  coherent lib (_clear_cache self).
Proof. intros k f Hk. discriminate Hk. Qed.

Lemma coherent_numeric (k : Attr) (self : ShootingSolver Expr Fn Ode) :
  coherent lib self ->
  coherent lib (snd (_numeric lib k self))
  /\ fst (_numeric lib k self)
     = lambdify lib (_symbolic_args lib self) (_symbolic lib k self).
Proof.
  intros Hc. unfold _numeric. destruct (cached self k) as [f|] eqn:Hk; cbn [fst snd].
  - split; [exact Hc | exact (Hc k f Hk)].
  - split; [|reflexivity].
    intros k' f' Hk'. cbn [cached] in Hk'.
    destruct (decide (k' = k)) as [-> | Hne].
    + injection Hk' as <-. reflexivity.
    + exact (Hc k' f' Hk').
Qed.

Lemma coherent_apply_op (self : ShootingSolver Expr Fn Ode) (op : Op (Expr := Expr)) :
  coherent lib self -> coherent lib (apply_op lib self op).
Proof.
  intros Hc. destruct op as [k | | model]; cbn [apply_op].
  - exact (proj1 (coherent_numeric k self Hc)).
  - unfold integrator. destruct (__integrator self); exact Hc.
  - unfold set_model. destruct model as [m | c]; cbn [_validate_model].
    + apply coherent_cleared.
    + exact Hc.
Qed.

Lemma coherent_after_ops (ops : list (Op (Expr := Expr))) :
  forall self : ShootingSolver Expr Fn Ode,
    coherent lib self -> coherent lib (fold_left (apply_op lib) ops self).
Proof.
  induction ops as [|op ops IH]; intros self Hc; cbn [fold_left].
  - exact Hc.
  - apply IH, coherent_apply_op, Hc.
Qed.

Lemma coherent_init (model : PyObject Expr) (self : ShootingSolver Expr Fn Ode) :
  __init__ model = Valid self -> coherent lib self.
Proof.
  unfold __init__. destruct model as [m | c]; cbn [_validate_model]; [|discriminate].
  intros [= <-]. apply coherent_cleared.
Qed.

End CacheFacts.

(** X13. The cache is never stale with respect to assignments of the
    model: from the construction of a solver on, whatever compiled functions
    and integrator have been read and whatever models have been assigned
    (rejected assignments included), a compiled function read from the
    solver is the one that [lambdify] gives for the expression and the
    arguments of the model the solver holds at that moment. *)
Theorem cache_follows_assigned_model :
  forall (Expr Fn Ode Val : Type) (lib : Compiler.Library Expr Fn Ode Val)
         (model : Compiler.PyObject Expr) (self0 : Compiler.ShootingSolver Expr Fn Ode)
         (ops : list (Compiler.Op (Expr := Expr))) (k : Compiler.Attr),
    Compiler.__init__ model = Compiler.Valid self0 ->
    let self := fold_left (Compiler.apply_op lib) ops self0 in
    fst (Compiler._numeric lib k self)
    = Compiler.lambdify lib (Compiler._symbolic_args lib self)
        (Compiler._symbolic lib k self).
Proof.
  intros Expr Fn Ode Val lib model self0 ops k Hinit. cbv zeta.
  apply coherent_numeric, coherent_after_ops, (coherent_init lib model), Hinit.
Qed.

(** Witness for X13: a solver built on one model, read, and given another
    model compiles the wage of the second. *)
Lemma cache_follows_assigned_model_witness :
  exists self0,
    Compiler.__init__ (Compiler.Model_instance (text_model 1)) = Compiler.Valid self0
    /\ fst (Compiler._numeric text_library Compiler.numeric_wage
              (fold_left (Compiler.apply_op text_library)
                 [Compiler.Read Compiler.numeric_wage;
                  Compiler.Assign (Compiler.Model_instance (text_model 2))] self0))
       = (["x"; "V"; "alpha"], "w")%string.
Proof.
  eexists. split; [reflexivity|].
  rewrite (cache_follows_assigned_model _ _ _ _ text_library
             (Compiler.Model_instance (text_model 1)) _ _ Compiler.numeric_wage eq_refl).
  reflexivity.
Defined.

(** X14. Each expression is compiled at most once between two assignments
    of the model: reading a compiled function leaves it in its attribute, a
    second read returns the same function and changes nothing, and a read
    touches neither the model, nor the integrator, nor any other
    attribute. *)
Theorem numeric_is_compiled_once :
  forall (Expr Fn Ode Val : Type) (lib : Compiler.Library Expr Fn Ode Val)
         (k : Compiler.Attr) (self : Compiler.ShootingSolver Expr Fn Ode),
    let first := Compiler._numeric lib k self in
    Compiler._numeric lib k (snd first) = first
    /\ Compiler.cached (snd first) k = Some (fst first)
    /\ Compiler._model (snd first) = Compiler._model self
    /\ Compiler.__integrator (snd first) = Compiler.__integrator self
    /\ forall k', k' <> k ->
                  Compiler.cached (snd first) k' = Compiler.cached self k'.
Proof.
  intros Expr Fn Ode Val lib k self. cbv zeta. unfold Compiler._numeric.
  destruct (Compiler.cached self k) as [f|] eqn:Hk; cbn [fst snd].
  - rewrite Hk. auto.
  - cbn [Compiler.cached Compiler._model Compiler.__integrator].
    destruct (decide (k = k)) as [_ | Hne]; [|congruence].
    repeat split.
    intros k' Hne. destruct (decide (k' = k)); [congruence | reflexivity].
Qed.

(** X15. The parameter values are read when a compiled function is called,
    not when it is compiled. So a cached function survives any change made
    to the model object in place; and when such a change keeps the
    expressions, the worker variable and the parameter names, as a change of
    parameter values does, the cache stays right and a call passes the new
    values to the function that a fresh compilation would give. *)
Theorem parameter_values_are_read_at_call_time :
  forall (Expr Fn Ode Val : Type) (lib : Compiler.Library Expr Fn Ode Val)
         (self : Compiler.ShootingSolver Expr Fn Ode) (m : Compiler.SymModel Expr)
         (k : Compiler.Attr) (x : Q) (v : Q * Q),
    (forall f, Compiler.cached self k = Some f ->
               fst (Compiler._numeric lib k (Compiler.mutated self m)) = f)
    /\ (Compiler.coherent lib self ->
        Compiler.matching m = Compiler.matching (Compiler._model self) ->
        Compiler.workers_var m = Compiler.workers_var (Compiler._model self) ->
        map fst (Compiler.params m) = map fst (Compiler.params (Compiler._model self)) ->
        Compiler.coherent lib (Compiler.mutated self m)
        /\ fst (Compiler.call_numeric lib k (Compiler.mutated self m) x v)
           = Compiler.call lib
               (Compiler.lambdify lib
                  (Compiler._symbolic_args lib (Compiler.mutated self m))
                  (Compiler._symbolic lib k (Compiler.mutated self m)))
               x v (map snd (Compiler.params m))).
Proof.
  intros Expr Fn Ode Val lib self m k x v. split.
  - intros f Hk. unfold Compiler._numeric. cbn [Compiler.mutated Compiler.cached].
    rewrite Hk. reflexivity.
  - intros Hc Hm Hw Hp.
    assert (Hargs : Compiler._symbolic_args lib (Compiler.mutated self m)
                    = Compiler._symbolic_args lib self).
    { unfold Compiler._symbolic_args, Compiler._symbolic_variables,
        Compiler._symbolic_params. cbn [Compiler.mutated Compiler._model].
      rewrite Hw, Hp. reflexivity. }
    assert (Hsym : forall k', Compiler._symbolic lib k' (Compiler.mutated self m)
                              = Compiler._symbolic lib k' self).
    { intros k'. destruct k'; cbn [Compiler._symbolic];
        unfold Compiler._symbolic_input_types, Compiler._symbolic_jacobian,
          Compiler._symbolic_profit, Compiler._symbolic_quantities,
          Compiler._symbolic_span_of_control, Compiler._symbolic_system,
          Compiler._symbolic_type_resource, Compiler._symbolic_wage,
          Compiler._symbolic_equations;
        cbn [Compiler.mutated Compiler._model]; rewrite Hm; reflexivity. }
    assert (Hc' : Compiler.coherent lib (Compiler.mutated self m)).
    { intros k' f Hk'. rewrite Hargs, Hsym. exact (Hc k' f Hk'). }
    split; [exact Hc'|].
    unfold Compiler.call_numeric.
    pose proof (coherent_numeric lib k (Compiler.mutated self m) Hc') as [_ Hf].
    destruct (Compiler._numeric lib k (Compiler.mutated self m)) as [f self'].
    cbn [fst] in Hf |- *. rewrite Hf. reflexivity.
Qed.

(** Witness for X15: the wage compiled for alpha = 1 is called with
    alpha = 5 after the value was changed in place. *)
Lemma parameter_values_are_read_at_call_time_witness :
  let self := snd (Compiler._numeric text_library Compiler.numeric_wage
                     {| Compiler._model := text_model 1;
                        Compiler.cached := fun _ => None;
                        Compiler.__integrator := None |}) in
  fst (Compiler.call_numeric text_library Compiler.numeric_wage
         (Compiler.mutated self (text_model 5)) 0 (0, 0))
  = 5 + 0.
Proof.
  cbv zeta.
  rewrite (proj2 (proj2 (parameter_values_are_read_at_call_time _ _ _ _ text_library
             (snd (Compiler._numeric text_library Compiler.numeric_wage
                     {| Compiler._model := text_model 1;
                        Compiler.cached := fun _ => None;
                        Compiler.__integrator := None |}))
             (text_model 5) Compiler.numeric_wage 0 (0, 0))
           (proj1 (coherent_numeric text_library Compiler.numeric_wage _
                     (coherent_cleared text_library
                        {| Compiler._model := text_model 1;
                           Compiler.cached := fun _ => None;
                           Compiler.__integrator := None |})))
           eq_refl eq_refl eq_refl)).
  reflexivity.
Defined.

Lemma ranged_splev_shape : splev_shape ranged_splev.
Proof.
  intros x c der ext out. unfold ranged_splev.
  destruct (Z.eqb ext 2 && negb (forallb (fun v => Qle_bool 1 v && Qle_bool v 2) x));
    [discriminate|].
  apply line_splev_shape.
Qed.

(** Witness for X12: a query point outside the sampled range makes the
    residual fail with the error of the spline evaluation. *)
Lemma residual_errors_come_from_the_spline_witness :
  ranged_splev [3] tt 0 2 = Raise (ValueError "Error on input data").
Proof.
  assert (Hrows : (2 <= length (_solution stacked_solver))%nat) by (simpl; lia).
  assert (Hx : [3] <> @nil Q) by discriminate.
  destruct (residual_errors_come_from_the_spline (toy_model "positive" 4 2) unit
              line_splprep ranged_splev stacked_solver [3] 3 2
              (ValueError "Error on input data") Hrows Hx ranged_splev_shape eq_refl)
    as [H | (c & _ & [H | [[soln Hs] _]])].
  - vm_compute in H. discriminate H.
  - destruct c. exact H.
  - destruct c. vm_compute in Hs. discriminate Hs.
Defined.

(** ** The boundary row is not checked for its firm size *)

(** C6. [_reset_solution] stores the guess as the firm size of the boundary
    row without the assertion that [_update_solution] makes on every later
    row. With the upper guess -8 the first guess is -4: the boundary row is
    recorded with the firm size -4, no error is raised, and on the drifting
    model the run even ends with success on a trajectory whose first row has
    a negative firm size. *)
Theorem boundary_row_firm_size_is_not_asserted :
  exists f r rows,
    solve drift_model euler (toy_args (-8) (1 # 1000000) 2 false) 5
    = Returned BreakSuccess f
    /\ _solution (self f) = r :: rows
    /\ row_firm_size r == -4
    /\ row_firm_size r <= 0
    /\ 0 < row_wage r
    /\ 0 < row_profit r
    /\ stdout f = [SuccessAllMatched].
Proof.
  eexists. eexists. eexists.
  split; [vm_compute; reflexivity|].
  split; [reflexivity|].
  split; [reflexivity|].
  split; [discriminate|].
  split; [reflexivity|].
  split; reflexivity.
Qed.

(** ** The loop has no count of its passes *)

Section Passes.

Context (model : Model) (ode_run : Stepper) (a : SolveArgs) (h : Q).

Lemma solve_loop_extend (n : nat) :
  forall (f0 f1 : Frame) (m : nat),
    solve_loop model ode_run a h n f0 = Running f1 ->
    solve_loop model ode_run a h (n + m) f0 = solve_loop model ode_run a h m f1.
Proof.
  induction n as [|n IH]; intros f0 f1 m; cbn [solve_loop Nat.add].
  - destruct (successful (integrator (self f0))) eqn:Hok; [|discriminate].
    intros [= <-]. reflexivity.
  - destruct (successful (integrator (self f0))) eqn:Hok; [|discriminate].
    destruct (loop_body model ode_run a h f0) as [[f | why f] | e];
      [|discriminate|discriminate].
    apply IH.
Qed.

(** As long as the passes hand over to a successful loop test, the loop
    takes them, however many they are. *)
Lemma passes_Running (n k : nat) (f0 f : Frame) :
  passes model ode_run a h n k f0 f ->
  successful (integrator (self f)) = true ->
  solve_loop model ode_run a h n f0 = Running f.
Proof.
  intros Hp. induction Hp as [f | n k f f1 f2 Hp IH Hok1 Hb]; intros Hok.
  - cbn [solve_loop]. rewrite Hok. reflexivity.
  - replace (S n) with (n + 1)%nat by lia.
    rewrite (solve_loop_extend n f f1 1 (IH Hok1)).
    cbn [solve_loop]. rewrite Hok1, Hb, Hok. reflexivity.
Qed.

(** Every result of the loop is reached through passes that handed over,
    and every stop has one of four causes. *)
Lemma solve_loop_passes (n : nat) :
  forall (n0 k0 : nat) (f0 f : Frame),
    passes model ode_run a h n0 k0 f0 f ->
    match solve_loop model ode_run a h n f with
    | Running f' =>
        (exists k, passes model ode_run a h (n0 + n) k f0 f')
        /\ successful (integrator (self f')) = true
    | Returned LoopTestFalse f' =>
        (exists m k, (m <= n0 + n)%nat /\ passes model ode_run a h m k f0 f')
        /\ successful (integrator (self f')) = false
    | Returned why f' =>
        exists m k f1,
          (m < n0 + n)%nat
          /\ passes model ode_run a h m k f0 f1
          /\ successful (integrator (self f1)) = true
          /\ loop_body model ode_run a h f1 = Ok (Break why f')
    | Raised e =>
        exists m k f1,
          (m < n0 + n)%nat
          /\ passes model ode_run a h m k f0 f1
          /\ successful (integrator (self f1)) = true
          /\ loop_body model ode_run a h f1 = Raise e
    end.
Proof.
  induction n as [|n IH]; intros n0 k0 f0 f Hp; cbn [solve_loop].
  - destruct (successful (integrator (self f))) eqn:Hok.
    + rewrite Nat.add_0_r. eauto.
    + split; [|exact Hok]. exists n0, k0. split; [lia | exact Hp].
  - destruct (successful (integrator (self f))) eqn:Hok.
    2:{ split; [|exact Hok]. exists n0, k0. split; [lia | exact Hp]. }
    destruct (loop_body model ode_run a h f) as [[f1 | why f1] | e] eqn:Hb.
    + pose proof (IH _ _ f0 f1 (passes_more _ _ _ _ _ _ _ _ _ Hp Hok Hb)) as H.
      replace (S n0 + n)%nat with (n0 + S n)%nat in H by lia. exact H.
    + destruct (loop_body_Break model ode_run a h f f1 why Hb) as [(-> & _) | (-> & _)];
        exists n0, k0, f; (split; [lia|]); auto.
    + exists n0, k0, f. split; [lia|]. auto.
Qed.

(** With [message] on, the lines printed along the passes are as many as
    the bracket updates among them. *)
Lemma passes_log (n k : nat) (f0 f : Frame) :
  message a = true ->
  passes model ode_run a h n k f0 f ->
  length (stdout f) = (length (stdout f0) + k)%nat.
Proof.
  intros Hmsg Hp. induction Hp as [f | n k f f1 f2 Hp IH Hok1 Hb].
  - lia.
  - unfold updates_bracket.
    destruct (loop_body_Next model ode_run a h f1 f2 Hb)
      as (_ & s & Hs & _ & [(Hcw & Hef & ->) | [(Hef & msg & Hre) | (Hcw & Hef & Hre)]]);
      rewrite Hs.
    + rewrite Hcw, Hef. cbn. exact IH.
    + rewrite Hef. cbn [orb].
      destruct (restart_Next_frame model _ _ Hre) as [_ ->].
      rewrite Hmsg. cbn. rewrite length_app, IH. cbn. lia.
    + rewrite Hcw, Hef. cbn [orb].
      destruct (restart_Next_frame model _ _ Hre) as [_ ->].
      rewrite Hmsg. cbn. rewrite length_app, IH. cbn. lia.
Qed.

End Passes.

Lemma solve_init_first_frame (model : Model) (a : SolveArgs) (f : Frame) :
  solve_init model a = Ok f -> f = first_frame model a.
Proof.
  unfold solve_init. cbv zeta.
  pose proof (_reset_solution_cases model ((1 # 2) * (guess_firm_size_upper a + 0)))
    as Hinit.
  cbv zeta in Hinit.
  destruct (_reset_solution model ((1 # 2) * (guess_firm_size_upper a + 0)))
    as [s | e]; cbn [mbind res_bind]; [|discriminate].
  destruct Hinit as (-> & _). intros [= <-]. reflexivity.
Qed.

(** C7 (as amended). [solve] takes no iteration count and its loop has no
    cap: after any number n of passes the loop is still going exactly when
    each of the n passes was entered with a successful integrator and handed
    over to the loop test, and the integrator is still successful. The loop
    comes to an end only when the integrator reports failure at the loop
    test, at the guess-too-low break, at the success break, or by an error
    raised in a pass. *)
Theorem solve_loop_has_no_iteration_cap :
  forall (model : Model) (ode_run : Stepper) (a : SolveArgs) (n : nat),
    (forall f,
       solve model ode_run a n = Running f
       <-> exists h k,
            solve_init model a = Ok (first_frame model a)
            /\ solve_step_size model a = Ok h
            /\ passes model ode_run a h n k (first_frame model a) f
            /\ successful (integrator (self f)) = true)
    /\ (forall why f,
          solve model ode_run a n = Returned why f ->
          exists h m k f1,
            solve_step_size model a = Ok h
            /\ (m <= n)%nat
            /\ passes model ode_run a h m k (first_frame model a) f1
            /\ (why = LoopTestFalse /\ f = f1
                /\ successful (integrator (self f1)) = false
                \/ (why = BreakGuessTooLow \/ why = BreakSuccess)
                   /\ (m < n)%nat
                   /\ successful (integrator (self f1)) = true
                   /\ loop_body model ode_run a h f1 = Ok (Break why f)))
    /\ (forall e,
          solve model ode_run a n = Raised e ->
          solve_init model a = Raise e
          \/ solve_step_size model a = Raise e
          \/ exists h m k f1,
              solve_step_size model a = Ok h
              /\ (m < n)%nat
              /\ passes model ode_run a h m k (first_frame model a) f1
              /\ successful (integrator (self f1)) = true
              /\ loop_body model ode_run a h f1 = Raise e).
Proof.
  intros model ode_run a n.
  assert (Hfwd : forall h,
            solve_init model a = Ok (first_frame model a) ->
            solve_step_size model a = Ok h ->
            solve model ode_run a n
            = solve_loop model ode_run a h n (first_frame model a)).
  { intros h Hi Hh. unfold solve. rewrite Hi, Hh. reflexivity. }
  destruct (solve_init model a) as [f0 | e0] eqn:Hinit.
  2:{ assert (Hs : solve model ode_run a n = Raised e0)
        by (unfold solve; rewrite Hinit; reflexivity).
      rewrite Hs. split; [|split].
      - intros f. split; [discriminate | intros (h & k & Hi & _); discriminate].
      - discriminate.
      - intros e [= <-]. auto. }
  pose proof (solve_init_first_frame model a f0 Hinit) as ->.
  destruct (solve_step_size model a) as [h | e1] eqn:Hh.
  2:{ assert (Hs : solve model ode_run a n = Raised e1)
        by (unfold solve; rewrite Hinit, Hh; reflexivity).
      rewrite Hs. split; [|split].
      - intros f. split; [discriminate | intros (h & k & _ & Hh' & _); discriminate].
      - discriminate.
      - intros e [= <-]. auto. }
  rewrite (Hfwd h eq_refl eq_refl).
  pose proof (solve_loop_passes model ode_run a h n 0 0 _ _
                (passes_none model ode_run a h (first_frame model a))) as H.
  cbn [Nat.add] in H.
  split; [|split].
  - intros f. split.
    + intros Hr. rewrite Hr in H. destruct H as [[k Hp] Hok].
      exists h, k. auto.
    + intros (h' & k & _ & [= <-] & Hp & Hok).
      exact (passes_Running model ode_run a h n k _ f Hp Hok).
  - intros why f Hr. rewrite Hr in H. destruct why.
    + destruct H as [(m & k & Hm & Hp) Hok]. exists h, m, k, f. auto 8.
    + destruct H as (m & k & f1 & Hm & Hp & Hok & Hb).
      exists h, m, k, f1. split; [reflexivity|]. split; [lia|]. split; [exact Hp|].
      right. auto 6.
    + destruct H as (m & k & f1 & Hm & Hp & Hok & Hb).
      exists h, m, k, f1. split; [reflexivity|]. split; [lia|]. split; [exact Hp|].
      right. auto 6.
  - intros e Hr. rewrite Hr in H. destruct H as (m & k & f1 & Hm & Hp & Hok & Hb).
    right. right. exists h, m, k, f1. auto.
Qed.

(** An instance of C7 (as amended): the run with tolerance -1 is still
    going after seven passes, none of which updated the bracket. *)
Lemma solve_loop_has_no_iteration_cap_witness :
  exists f h,
    solve (toy_model "positive" 0 2) euler (toy_args 8 (-1) 3 false) 7 = Running f
    /\ solve_step_size (toy_model "positive" 0 2) (toy_args 8 (-1) 3 false) = Ok h
    /\ exists k,
        passes (toy_model "positive" 0 2) euler (toy_args 8 (-1) 3 false) h 7 k
          (first_frame (toy_model "positive" 0 2) (toy_args 8 (-1) 3 false)) f.
Proof.
  destruct (solve (toy_model "positive" 0 2) euler (toy_args 8 (-1) 3 false) 7)
    as [e | why f | f] eqn:E;
    try (vm_compute in E; discriminate E).
  destruct (proj1 (proj1 (solve_loop_has_no_iteration_cap (toy_model "positive" 0 2)
                            euler (toy_args 8 (-1) 3 false) 7) f) E)
    as (h & k & _ & Hh & Hp & _).
  exists f, h. split; [reflexivity|]. split; [exact Hh|]. exists k. exact Hp.
Defined.

(** ** The bracket of the bisection *)

Lemma bracket_inv_restart (model : Model) (a : SolveArgs) (g f' : Frame) :
  restart model g = Ok (Next f') ->
  0 <= firm_size_lower g ->
  firm_size_upper g <= guess_firm_size_upper a ->
  bracket_inv a f'.
Proof.
  intros Hre Hlo Hup.
  destruct (restart_Next_frame model g f' Hre) as [Hw ->].
  unfold bracket_inv. cbn [firm_size_lower firm_size_upper guess_firm_size].
  unfold float_eps in Hw.
  repeat split; lra.
Qed.

Lemma bracket_inv_Next (model : Model) (ode_run : Stepper) (a : SolveArgs) (h : Q)
      (f f' : Frame) :
  bracket_inv a f ->
  loop_body model ode_run a h f = Ok (Next f') ->
  bracket_inv a f'.
Proof.
  intros (H0 & Hlt & Hup & Hlg & Hgu) Hb.
  destruct (loop_body_Next model ode_run a h f f' Hb)
    as (_ & s & _ & _ & [(_ & _ & ->) | [(_ & msg & Hre) | (_ & _ & Hre)]]).
  - unfold bracket_inv. cbn [with_self firm_size_lower firm_size_upper guess_firm_size].
    auto.
  - apply (bracket_inv_restart model a _ f' Hre);
      destruct (message a); cbn; lra.
  - apply (bracket_inv_restart model a _ f' Hre);
      destruct (message a); cbn; lra.
Qed.

Lemma bracket_inv_Break (model : Model) (ode_run : Stepper) (a : SolveArgs) (h : Q)
      (f f' : Frame) (why : Exit) :
  bracket_inv a f ->
  loop_body model ode_run a h f = Ok (Break why f') ->
  bracket_inv a f'.
Proof.
  intros Hinv Hb.
  destruct (loop_body_Break model ode_run a h f f' why Hb)
    as [(_ & _ & ->) | (_ & _ & s & _ & _ & _ & _ & ->)].
  - destruct (message a); exact Hinv.
  - exact Hinv.
Qed.

(** X4. Started with a positive [guess_firm_size_upper], the frame in which
    a run ends (short of an error) has a bracket inside the initial one,
    with bounds that differ, and a guess that lies within the bracket:
    0 <= lower < upper <= guess_firm_size_upper and lower <= guess <= upper. *)
Theorem bracket_stays_within_initial :
  forall (model : Model) (ode_run : Stepper) (a : SolveArgs) (fuel : nat) (f : Frame),
    0 < guess_firm_size_upper a ->
    final_frame (solve model ode_run a fuel) = Some f ->
    0 <= firm_size_lower f
    /\ firm_size_lower f < firm_size_upper f
    /\ firm_size_upper f <= guess_firm_size_upper a
    /\ firm_size_lower f <= guess_firm_size f
    /\ guess_firm_size f <= firm_size_upper f.
Proof.
  intros model ode_run a fuel f HG.
  apply (solve_final_invariant model ode_run a (bracket_inv a)).
  - intros h g g' Hinv _ Hb. exact (bracket_inv_Next model ode_run a h g g' Hinv Hb).
  - intros h g g' why Hinv _ Hb.
    exact (bracket_inv_Break model ode_run a h g g' why Hinv Hb).
  - unfold bracket_inv. cbn [firm_size_lower firm_size_upper guess_firm_size].
    repeat split; lra.
Qed.

(** An instance of X4: the run that succeeds on its second attempt ends
    with the bracket [0, 4] and the guess 2. *)
Lemma bracket_stays_within_initial_witness :
  exists f,
    final_frame (solve (toy_model "positive" 4 2) euler
                   (toy_args 8 (1 # 1000000) 3 true) 10) = Some f
    /\ 0 <= firm_size_lower f
    /\ firm_size_lower f < firm_size_upper f
    /\ firm_size_upper f <= 8
    /\ firm_size_lower f <= guess_firm_size f
    /\ guess_firm_size f <= firm_size_upper f.
Proof.
  eexists. split; [vm_compute; reflexivity|].
  refine (bracket_stays_within_initial (toy_model "positive" 4 2) euler
            (toy_args 8 (1 # 1000000) 3 true) 10 _ _ _).
  - reflexivity.
  - vm_compute. reflexivity.
Defined.

(** ** What the run prints *)

(** X16. With [message] on, the loop prints one line in every pass that
    updates the bracket and none in any other pass that hands over to the
    loop test: a run that stops at the loop test or is still going has
    printed as many lines as it made bracket updates; a run that breaks out
    has printed exactly one more line, the failure message of the
    guess-too-low break or the success message. *)
Theorem log_has_one_line_per_bracket_update :
  forall (model : Model) (ode_run : Stepper) (a : SolveArgs) (fuel : nat),
    message a = true ->
    match solve model ode_run a fuel with
    | Raised _ => True
    | Running f | Returned LoopTestFalse f =>
        exists h n k,
          solve_step_size model a = Ok h
          /\ (n <= fuel)%nat
          /\ passes model ode_run a h n k (first_frame model a) f
          /\ length (stdout f) = k
    | Returned why f =>
        exists h n k f1,
          solve_step_size model a = Ok h
          /\ (n < fuel)%nat
          /\ passes model ode_run a h n k (first_frame model a) f1
          /\ length (stdout f1) = k
          /\ stdout f
             = stdout f1 ++ [match why with
                             | BreakSuccess => SuccessAllMatched
                             | _ => FailureIncreaseGuess
                             end]
    end.
Proof.
  intros model ode_run a fuel Hmsg.
  destruct (solve_cases model ode_run a fuel) as [(e & -> & _) | (h & Hh & ->)];
    [exact I|].
  change (solve_loop model ode_run a h fuel _)
    with (solve_loop model ode_run a h fuel (first_frame model a)).
  pose proof (solve_loop_passes model ode_run a h fuel 0 0 _ _
                (passes_none model ode_run a h (first_frame model a))) as H.
  cbn [Nat.add] in H.
  assert (Hlog : forall n k f,
            passes model ode_run a h n k (first_frame model a) f ->
            length (stdout f) = k).
  { intros n k f Hp. rewrite (passes_log model ode_run a h n k _ f Hmsg Hp).
    reflexivity. }
  destruct (solve_loop model ode_run a h fuel (first_frame model a))
    as [e | why f | f]; [exact I | |].
  - destruct why.
    + destruct H as [(n & k & Hn & Hp) _]. exists h, n, k. eauto.
    + destruct H as (n & k & f1 & Hn & Hp & _ & Hb).
      exists h, n, k, f1. repeat (split; [eauto|]).
      destruct (loop_body_Break model ode_run a h f1 f _ Hb)
        as [(_ & _ & ->) | (E & _)]; [|discriminate E].
      rewrite Hmsg. reflexivity.
    + destruct H as (n & k & f1 & Hn & Hp & _ & Hb).
      exists h, n, k, f1. repeat (split; [eauto|]).
      destruct (loop_body_Break model ode_run a h f1 f _ Hb)
        as [(E & _) | (_ & _ & s & _ & _ & _ & _ & ->)]; [discriminate E|].
      reflexivity.
  - destruct H as [[k Hp] _]. exists h, fuel, k. eauto.
Qed.

(** An instance of X16: the run that succeeds on its second attempt made one
    bracket update and printed two lines. *)
Lemma log_has_one_line_per_bracket_update_witness :
  exists f,
    solve (toy_model "positive" 4 2) euler (toy_args 8 (1 # 1000000) 3 true) 10
    = Returned BreakSuccess f
    /\ length (stdout f) = 2%nat
    /\ exists h n f1,
        passes (toy_model "positive" 4 2) euler (toy_args 8 (1 # 1000000) 3 true)
          h n 1 (first_frame (toy_model "positive" 4 2) (toy_args 8 (1 # 1000000) 3 true))
          f1
        /\ stdout f = stdout f1 ++ [SuccessAllMatched].
Proof.
  pose proof (log_has_one_line_per_bracket_update (toy_model "positive" 4 2) euler
                (toy_args 8 (1 # 1000000) 3 true) 10 eq_refl) as H.
  destruct (solve (toy_model "positive" 4 2) euler (toy_args 8 (1 # 1000000) 3 true) 10)
    as [e | why f | f] eqn:E;
    try (vm_compute in E; discriminate E).
  destruct why; try (vm_compute in E; discriminate E).
  destruct H as (h & n & k & f1 & _ & _ & Hp & Hk & Hout).
  assert (Hlen : length (stdout f) = 2%nat).
  { vm_compute in E. injection E as <-. reflexivity. }
  assert (Hk1 : k = 1%nat).
  { rewrite Hout, length_app, Hk in Hlen. cbn in Hlen. lia. }
  rewrite Hk1 in Hp.
  exists f. split; [reflexivity|]. split; [exact Hlen|].
  exists h, n, f1. split; [exact Hp | exact Hout].
Defined.
